(** * A shallow embedding of the trust-lens plagiarism pipeline

    The model follows [src/src/lib/services/plagiarismChecker.ts],
    [textExtractor.ts], [webSearch.ts], [aiGeneratedDetector.ts],
    [similarityScorer.ts], [utils/cache.ts], the retry helper [retryWithBackoff] and the pipeline
    wrapper [runPlagiarismPipeline].

    Conventions:
    - JS strings are modelled as Stdlib [string] (one [ascii] per UTF-16 code
      unit; the test texts are ASCII);
    - JS numbers that are indices or lengths are [nat], hashes are [Z] with the
      32-bit wrap-around written out, fractional numbers (likelihoods,
      percentages, delays) are [Q];
    - thrown JS values are [jsval], a small universe of JS values with objects,
      prototypes and callable properties, so that the [catch] blocks that
      inspect [error.message], [String(error)] and [err?.toString()] can be
      followed as written;
    - asynchronous code is run to completion; the only nondeterminism that the
      outputs depend on (which rejection of a batch settles [Promise.all]
      first) is a parameter of the environment. *)

From Stdlib Require Import String Ascii List Bool Arith Lia ZArith QArith.
From Stdlib Require Import Qminmax Sorting.Permutation Sorting.Sorted.
Import ListNotations.
Open Scope string_scope.
Open Scope list_scope.
Open Scope nat_scope.

(* ------------------------------------------------------------------ *)
(** ** String helpers (String.prototype methods used by the source)    *)

Module Str.

Definition chars (s : string) : list ascii := list_ascii_of_string s.
Definition of_chars (l : list ascii) : string := string_of_list_ascii l.

(** [s.slice(a, b)] for [0 <= a], [0 <= b]. *)
Definition slice (s : string) (a b : nat) : string :=
  of_chars (firstn (b - a) (skipn a (chars s))).

(** [s.includes(sub)]. *)
Definition includes (s sub : string) : bool :=
  match index 0 sub s with Some _ => true | None => false end.

(** [s.startsWith(p)]. *)
Definition startsWith (s p : string) : bool := prefix p s.

(** [s.replace(pat, rep)] with a string pattern: the first occurrence only. *)
Definition replace (pat rep s : string) : string :=
  match index 0 pat s with
  | Some n => substring 0 n s ++ rep ++
              substring (n + String.length pat) (String.length s - (n + String.length pat)) s
  | None => s
  end.

(** JS white space, restricted to ASCII: TAB, LF, VT, FF, CR and SPACE. *)
Definition is_ws (c : ascii) : bool :=
  let n := nat_of_ascii c in (Nat.leb 9 n && Nat.leb n 13) || Nat.eqb n 32.

Fixpoint drop_ws (l : list ascii) : list ascii :=
  match l with
  | c :: r => if is_ws c then drop_ws r else l
  | [] => []
  end.

(** [s.trim()]. *)
Definition trim (s : string) : string :=
  of_chars (rev' (drop_ws (rev' (drop_ws (chars s))))).

(** [s.toLowerCase()] on ASCII. *)
Definition lower (c : ascii) : ascii :=
  let n := nat_of_ascii c in
  if Nat.leb 65 n && Nat.leb n 90 then ascii_of_nat (n + 32) else c.
Definition toLowerCase (s : string) : string := of_chars (map lower (chars s)).

(** [s.split(".").pop()]: the text after the last dot (all of [s] if none). *)
Fixpoint after_last_dot (l acc : list ascii) : list ascii :=
  match l with
  | [] => rev acc
  | c :: r => if Ascii.eqb c "." then after_last_dot r [] else after_last_dot r (c :: acc)
  end.
Definition last_segment (s : string) : string := of_chars (after_last_dot (chars s) []).

End Str.

(* ------------------------------------------------------------------ *)
(** ** A universe of JS values, for the values a [catch] block receives *)

(** The prototype an object was created with: [Object.create(null)], a plain
    object literal, or an [Error]. *)
Set Warnings "-register-all,-abstract-large-number".

Inductive proto := ProtoNull | ProtoObject | ProtoError.

(** [JFun throws v] is a function that, called with no argument, returns [v]
    ([throws = false]) or throws [v] ([throws = true]). Objects list their own
    properties; missing ones are looked up in the prototype. *)
Inductive jsval :=
| JUndef
| JNull
| JBool (b : bool)
| JStr (s : string)
| JObj (p : proto) (props : list (string * jsval))
| JFun (throws : bool) (v : jsval).

(** Completion of a JS computation: a value, or a thrown value. *)
Inductive outcome (A : Type) :=
| Ret (a : A)
| Throw (e : jsval).
Arguments Ret {A} a.
Arguments Throw {A} e.

Definition obind {A B} (m : outcome A) (k : A -> outcome B) : outcome B :=
  match m with Ret a => k a | Throw e => Throw e end.
Notation "'let?' x ':=' m 'in' k" := (obind m (fun x => k))
  (at level 200, x name, m at level 100, k at level 200).

Module JS.

(** [new Error(msg)]. *)
Definition mk_error (msg : string) : jsval := JObj ProtoError [("message", JStr msg)].
(** The [TypeError]s the engine throws. *)
Definition type_error (msg : string) : jsval := mk_error msg.

Fixpoint assoc (k : string) (l : list (string * jsval)) : option jsval :=
  match l with
  | [] => None
  | (k', v) :: r => if String.eqb k k' then Some v else assoc k r
  end.

(** [x instanceof Error]. *)
Definition instanceof_Error (v : jsval) : bool :=
  match v with JObj ProtoError _ => true | _ => false end.

(** Truthiness ([!!v]). *)
Definition truthy (v : jsval) : bool :=
  match v with
  | JUndef | JNull => false
  | JBool b => b
  | JStr s => negb (String.eqb s "")
  | _ => true
  end.

Definition is_primitive (v : jsval) : bool :=
  match v with JObj _ _ | JFun _ _ => false | _ => true end.

(** Data-property read [v.k] on an object ([undefined] when absent); the
    prototype of an [Error] supplies [message = ""] and [name = "Error"]. *)
Definition get (v : jsval) (k : string) : outcome jsval :=
  match v with
  | JUndef | JNull => Throw (type_error "Cannot read properties of undefined")
  | JObj p props =>
      match assoc k props with
      | Some x => Ret x
      | None =>
          match p, k with
          | ProtoError, "message" => Ret (JStr "")
          | ProtoError, "name" => Ret (JStr "Error")
          | _, _ => Ret JUndef
          end
      end
  | _ => Ret JUndef
  end.

(** [v?.k]. *)
Definition get_opt (v : jsval) (k : string) : outcome jsval :=
  match v with JUndef | JNull => Ret JUndef | _ => get v k end.

(** ToString of a primitive. *)
Definition prim_to_string (v : jsval) : string :=
  match v with
  | JUndef => "undefined"
  | JNull => "null"
  | JBool true => "true"
  | JBool false => "false"
  | JStr s => s
  | _ => ""
  end.

(** [Error.prototype.toString] for an error with a string message. *)
Definition error_to_string (props : list (string * jsval)) : string :=
  match assoc "message" props with
  | Some (JStr "") | None => "Error"
  | Some (JStr m) => "Error: " ++ m
  | Some _ => "Error"
  end.

(** Calling method [k] of object [o] with no arguments, when it is callable:
    [Some] of the completion, [None] when the property is not callable.
    The built-in [toString] of [Object.prototype] and [Error.prototype]
    are used when the object has no own [toString]; [Object.prototype.valueOf]
    returns the object itself. *)
Definition call_method (o : jsval) (k : string) : option (outcome jsval) :=
  match o with
  | JObj p props =>
      match assoc k props with
      | Some (JFun false r) => Some (Ret r)
      | Some (JFun true r) => Some (Throw r)
      | Some _ => None
      | None =>
          match p, k with
          | ProtoObject, "toString" => Some (Ret (JStr "[object Object]"))
          | ProtoError, "toString" => Some (Ret (JStr (error_to_string props)))
          | ProtoObject, "valueOf" | ProtoError, "valueOf" => Some (Ret o)
          | _, _ => None
          end
      end
  | JFun _ _ =>
      match k with
      | "toString" => Some (Ret (JStr "function () { [native code] }"))
      | _ => Some (Ret o)
      end
  | _ => None
  end.

(** OrdinaryToPrimitive(o, string): [toString], then [valueOf]. *)
Definition to_primitive (o : jsval) : outcome jsval :=
  let try_one k (next : outcome jsval) :=
    match call_method o k with
    | Some (Ret r) => if is_primitive r then Ret r else next
    | Some (Throw e) => Throw e
    | None => next
    end in
  try_one "toString"
    (try_one "valueOf" (Throw (type_error "Cannot convert object to primitive value"))).

(** [String(v)] and template-literal interpolation. *)
Definition String_ (v : jsval) : outcome string :=
  if is_primitive v then Ret (prim_to_string v)
  else let? p := to_primitive v in Ret (prim_to_string p).

(** [error instanceof Error ? error.message : String(error)], followed by a
    string method call ([.includes]): a non-string message makes that call
    throw a [TypeError]. *)
Definition error_message (e : jsval) : outcome string :=
  if instanceof_Error e then
    let? m := get e "message" in
    match m with
    | JStr s => Ret s
    | _ => Throw (type_error "errorMessage.includes is not a function")
    end
  else String_ e.

(** [err?.toString()]. *)
Definition call_toString_opt (v : jsval) : outcome jsval :=
  match v with
  | JUndef | JNull => Ret JUndef
  | JStr _ => Ret v
  | JBool _ => Ret (JStr (prim_to_string v))
  | _ =>
      match call_method v "toString" with
      | Some r => r
      | None => Throw (type_error "err?.toString is not a function")
      end
  end.

End JS.

(* ------------------------------------------------------------------ *)
(** ** Data model ([src/src/lib/types/plagiarism.ts])                   *)

Record TextChunk := mkChunk {
  ctext : string;
  startIndex : nat;
  endIndex : nat;
}.

Record WebSearchResult := mkWSR {
  wsr_url : string;
  wsr_title : option string;
  wsr_snippet : option string;
}.

Record SourceMatch := mkMatch {
  sm_url : string;
  sm_title : option string;
  sm_snippet : option string;
  sm_similarityScore : Q;
}.

Record SuspiciousSegment := mkSeg {
  seg_startIndex : nat;
  seg_endIndex : nat;
  seg_textPreview : string;
  seg_similarityScore : Q;
  seg_sources : list SourceMatch;
}.

(** The value [scoreChunkAgainstSources] resolves to. *)
Record ScoreResult := mkScore {
  suspicious : bool;
  similarityScore : Q;
  matches : list SourceMatch;
}.

Inductive RiskLevel := low | medium | high.
Inductive AIVerdict := likely_ai | likely_human | uncertain.
Inductive AnalysisStatus := success | partial_success | error.

Record AIDetectionResult := mkAI {
  likelihood : Q;
  verdict : AIVerdict;
}.

(** [PlagiarismReport]; the free-text [explanation] is not modelled. *)
Record PlagiarismReport := mkReport {
  normalizedTextLength : nat;
  plagiarismPercentage : Q;
  riskLevel : RiskLevel;
  suspiciousSegments : list SuspiciousSegment;
  aiGeneratedLikelihood : Q;
  aiVerdict : AIVerdict;
  analysisStatus : AnalysisStatus;
}.

Inductive ErrorType := bad_request | extraction_error | upstream_error | analysis_error.

(** [PipelineResult] ([userMessage] is not modelled). *)
Record PipelineResult := mkResult {
  ok : bool;
  report : option PlagiarismReport;
  errorType : option ErrorType;
  message : option string;
}.

(** The behaviour of everything outside the modelled code: process
    environment variables, the cache backend, the HTTP/LLM calls (each one
    already wrapped in [retryWithBackoff] at its call site), the document
    decoding libraries, and the order in which the rejections of one batch
    reach [Promise.all]. *)
Record Env := mkEnv {
  search_key : bool;                                  (* SEARCH_API_KEY set *)
  gemini_key : bool;                                  (* GEMINI_API_KEY set *)
  cache_get_search : string -> option (list WebSearchResult);
  (** [retryWithBackoff(async () => fetch SerpAPI ...)] for a query. *)
  serp : string -> outcome (list WebSearchResult);
  (** [scoreChunkAgainstSources(chunk, sources)]. *)
  score : TextChunk -> list WebSearchResult -> outcome ScoreResult;
  cache_get_ai : string -> option AIDetectionResult;
  (** [retryWithBackoff(async () => Gemini ...)] on the text to analyze, up to
      the JSON parse: [Some (likelihood, verdict)] when the response holds a
      JSON object with a numeric [likelihood] and a string [verdict], [None]
      when it does not (the source then falls back to 0.5 / uncertain). *)
  gemini_ai : string -> outcome (option (Q * string));
  (** [(await pdfParse(buffer)).text], [(await mammoth.extractRawText(...)).value],
      [buffer.toString("utf-8")]. *)
  pdf_text : jsval -> outcome jsval;
  docx_text : jsval -> outcome jsval;
  txt_text : jsval -> outcome jsval;
  (** The rejection that settles [Promise.all] over one batch. *)
  first_rejection : list jsval -> jsval;
}.

(* ------------------------------------------------------------------ *)
(** ** Normalizer ([normalizeText] in textExtractor.ts)                 *)

Module Normalize.
Definition nl : ascii := "010".
Definition cr : ascii := "013".
Definition tab : ascii := "009".
Definition sp : ascii := " ".

(** [.replace(/\r\n/g, "\n")] *)
Fixpoint crlf_to_lf (l : list ascii) : list ascii :=
  match l with
  | c :: ((d :: r) as t) =>
      if Ascii.eqb c cr && Ascii.eqb d nl then nl :: crlf_to_lf r else c :: crlf_to_lf t
  | _ => l
  end.

(** [.replace(/\r/g, "\n")] *)
Definition cr_to_lf (l : list ascii) : list ascii :=
  map (fun c => if Ascii.eqb c cr then nl else c) l.

(** [.replace(/\n{3,}/g, "\n\n")]: [k] newlines are pending. *)
Fixpoint collapse_nl (l : list ascii) (k : nat) : list ascii :=
  let flush := repeat nl (if Nat.leb 3 k then 2 else k) in
  match l with
  | [] => flush
  | c :: r => if Ascii.eqb c nl then collapse_nl r (S k) else flush ++ c :: collapse_nl r 0
  end.

(** [.replace(/[ \t]+/g, " ")]: [inrun] when a run of blanks is pending. *)
Fixpoint collapse_blank (l : list ascii) (inrun : bool) : list ascii :=
  match l with
  | [] => if inrun then [sp] else []
  | c :: r =>
      if Ascii.eqb c sp || Ascii.eqb c tab then collapse_blank r true
      else (if inrun then [sp] else []) ++ c :: collapse_blank r false
  end.

(** [.replace(/[\x00-\x08\x0B-\x0C\x0E-\x1F\x7F]/g, "")] *)
Definition is_control (c : ascii) : bool :=
  let n := nat_of_ascii c in
  Nat.leb n 8 || (Nat.leb 11 n && Nat.leb n 12) || (Nat.leb 14 n && Nat.leb n 31)
  || Nat.eqb n 127.

(** The string transformation of [normalizeText]. *)
Definition normalize_core (s : string) : string :=
  let l := Str.chars s in
  let l := collapse_blank (collapse_nl (cr_to_lf (crlf_to_lf l)) 0) false in
  let t := Str.trim (Str.of_chars l) in
  Str.of_chars (filter (fun c => negb (is_control c)) (Str.chars t)).
End Normalize.

(** Decimal rendering of a length, for error messages. *)
Fixpoint digits_aux (fuel n : nat) (acc : string) : string :=
  match fuel with
  | 0 => acc
  | S f =>
      let d := String (ascii_of_nat (48 + n mod 10)) EmptyString in
      if Nat.ltb n 10 then d ++ acc else digits_aux f (n / 10) (d ++ acc)
  end.
Definition nat_to_string (n : nat) : string := digits_aux 20 n "".

Definition MIN_TEXT_LENGTH : nat := 50.

Definition normalizeText (text : jsval) : outcome string :=
  match text with
  | JStr s =>
      if String.eqb s "" then
        Throw (JS.mk_error "Invalid text input: text is empty or not a string")
      else
        let normalized := Normalize.normalize_core s in
        if Nat.ltb (String.length normalized) MIN_TEXT_LENGTH then
          Throw (JS.mk_error ("Text is too short (" ++ nat_to_string (String.length normalized)
                              ++ " characters). Minimum required: 50 characters."))
        else Ret normalized
  | _ => Throw (JS.mk_error "Invalid text input: text is empty or not a string")
  end.

(* ------------------------------------------------------------------ *)
(** ** Text extraction ([extractTextFromInput] and its helpers)         *)

Definition NO_TEXT_PDF : string :=
  "No readable text found in this file. Please upload a text-based PDF (not a scanned image).".
Definition NO_TEXT_DOCX : string :=
  "No readable text found in this file. The document may be empty or corrupted.".
Definition NO_TEXT_TXT : string :=
  "No readable text found in this file. The file may be empty or contain only whitespace.".

(** The body shared by [extractFromPDF], [extractFromDOCX] and [extractFromTXT]:
    [decoded] is the decoder's result, [kind] the name in the error message. *)
Definition extract_body (decoded : outcome jsval) (no_text : string) : outcome string :=
  let? extractedText := decoded in
  let extractedText := if JS.truthy extractedText then extractedText else JStr "" in
  match extractedText with
  | JStr s =>
      if String.eqb s "" || Nat.ltb (String.length (Str.trim s)) 50
      then Throw (JS.mk_error no_text) else Ret s
  | _ => Throw (JS.type_error "extractedText.trim is not a function")
  end.

Definition extract_catch (kind : string) (error : jsval) : outcome string :=
  let? rethrow :=
    if JS.instanceof_Error error then
      let? m := JS.get error "message" in
      match m with
      | JStr s => Ret (Str.includes s "No readable text")
      | _ => Throw (JS.type_error "error.message.includes is not a function")
      end
    else Ret false in
  if rethrow then Throw error
  else
    let? detail :=
      if JS.instanceof_Error error
      then let? m := JS.get error "message" in JS.String_ m
      else JS.String_ error in
    Throw (JS.mk_error ("Failed to extract text from " ++ kind ++ ": " ++ detail)).

Definition extract_file (decoded : outcome jsval) (kind no_text : string) : outcome string :=
  match extract_body decoded no_text with
  | Ret s => Ret s
  | Throw e => extract_catch kind e
  end.

Definition extractTextFromInput (env : Env) (input : jsval) : outcome string :=
  let? text := JS.get input "text" in
  if JS.truthy text then normalizeText text
  else
    let? fileBuffer := JS.get input "fileBuffer" in
    if JS.truthy fileBuffer then
      let? fileName := JS.get input "fileName" in
      let fileName := if JS.truthy fileName then fileName else JStr "" in
      let? extension :=
        match fileName with
        | JStr s => Ret (Str.toLowerCase (Str.last_segment s))
        | _ => Throw (JS.type_error "fileName.split is not a function")
        end in
      let? extractedText :=
        if String.eqb extension "pdf" then extract_file (pdf_text env fileBuffer) "PDF" NO_TEXT_PDF
        else if String.eqb extension "docx" then extract_file (docx_text env fileBuffer) "DOCX" NO_TEXT_DOCX
        else if String.eqb extension "txt" then extract_file (txt_text env fileBuffer) "TXT" NO_TEXT_TXT
        else Throw (JS.mk_error ("Unsupported file type: " ++ extension
                                 ++ ". Supported types: PDF, DOCX, TXT")) in
      normalizeText (JStr extractedText)
    else Throw (JS.mk_error "Either 'text' or 'fileBuffer' must be provided").

(* ------------------------------------------------------------------ *)
(** ** Chunker ([chunkText] in plagiarismChecker.ts)                    *)

Definition CHUNK_SIZE : nat := 1500.
Definition CHUNK_OVERLAP : nat := 200.
Definition MAX_CONCURRENT_CHUNKS : nat := 3.
Definition MAX_CHUNKS_TO_PROCESS : nat := 4.

(** The [while (startIndex < text.length)] loop; [fuel] bounds the number of
    iterations and [chunkText] gives it one more than the text has characters
    (each iteration advances [startIndex] by 1300). *)
Fixpoint chunk_loop (fuel : nat) (text : string) (startIndex : nat) : list TextChunk :=
  match fuel with
  | 0 => []
  | S f =>
      if Nat.ltb startIndex (String.length text) then
        let endIndex := Nat.min (startIndex + CHUNK_SIZE) (String.length text) in
        let c := mkChunk (Str.slice text startIndex endIndex) startIndex endIndex in
        let startIndex' := startIndex + (CHUNK_SIZE - CHUNK_OVERLAP) in
        if Nat.eqb endIndex startIndex' then [c]
        else c :: chunk_loop f text startIndex'
      else []
  end.

Definition chunkText (text : string) : list TextChunk :=
  chunk_loop (S (String.length text)) text 0.

(* ------------------------------------------------------------------ *)
(** ** Cache keys ([utils/cache.ts])                                    *)

Module Key.
Open Scope Z_scope.

(** ToInt32. *)
Definition toInt32 (x : Z) : Z :=
  let m := x mod 2 ^ 32 in if 2 ^ 31 <=? m then m - 2 ^ 32 else m.

(** [hash = (hash << 5) - hash + char; hash = hash & hash;] *)
Definition hash_step (hash : Z) (c : ascii) : Z :=
  let shifted := toInt32 (toInt32 hash * 2 ^ 5) in
  let hash' := shifted - hash + Z.of_nat (nat_of_ascii c) in
  toInt32 (Z.land (toInt32 hash') (toInt32 hash')).

Definition hash (s : string) : Z := fold_left hash_step (Str.chars s) 0.

Definition digit36 (d : Z) : ascii :=
  if d <? 10 then ascii_of_nat (Z.to_nat (48 + d)) else ascii_of_nat (Z.to_nat (87 + d)).

Fixpoint base36_aux (fuel : nat) (n : Z) (acc : string) : string :=
  match fuel with
  | O => acc
  | S f =>
      let d := String (digit36 (n mod 36)) EmptyString in
      if n <? 36 then d ++ acc else base36_aux f (n / 36) (d ++ acc)
  end.

(** [n.toString(36)] for a non-negative integer. *)
Definition toString36 (n : Z) : string := base36_aux 16 n "".

Definition getChunkCacheKey (chunkText : string) : string :=
  "chunk:" ++ toString36 (Z.abs (hash chunkText)).

Definition getAICacheKey (text : string) : string :=
  let sample := Str.slice text 0 1000 in
  "ai:" ++ toString36 (Z.abs (hash sample)).
End Key.


(* ------------------------------------------------------------------ *)
(** ** Source Finder ([searchWebForChunk] in webSearch.ts)              *)

Definition any_includes (m : string) (subs : list string) : bool :=
  existsb (Str.includes m) subs.

(** The markers of [searchWebForChunk]'s catch block. *)
Definition SEARCH_CRITICAL : list string :=
  ["502"; "500"; "503"; "504"; "5xx"; "network"; "fetch failed"; "timeout";
   "SerpAPI request failed"; "UPSTREAM_ERROR"; "BAD_REQUEST"].

Definition search_catch (error : jsval) : outcome (list WebSearchResult) :=
  let? errorMessage := JS.error_message error in
  if any_includes errorMessage SEARCH_CRITICAL then
    if negb (Str.includes errorMessage "UPSTREAM_ERROR")
       && negb (Str.includes errorMessage "BAD_REQUEST")
    then Throw (JS.mk_error ("UPSTREAM_ERROR: " ++ errorMessage))
    else Throw error
  else Ret [].

Definition searchWebForChunk (env : Env) (chunkText : string) : outcome (list WebSearchResult) :=
  if negb (search_key env) then
    Throw (JS.mk_error "BAD_REQUEST: Missing SEARCH_API_KEY on server.")
  else
    match cache_get_search env (Key.getChunkCacheKey chunkText) with
    | Some cached => Ret cached
    | None =>
        let query := Str.trim (Str.slice chunkText 0 500) in
        if String.eqb query "" then Ret []
        else
          match serp env query with
          | Ret results => Ret results
          | Throw e => search_catch e
          end
    end.

(* ------------------------------------------------------------------ *)
(** ** Authorship classifier ([detectAIGeneratedText])                  *)

Definition MAX_TEXT_LENGTH : nat := 200000.

Definition verdict_of_string (v : string) : option AIVerdict :=
  if String.eqb v "likely_ai" then Some likely_ai
  else if String.eqb v "likely_human" then Some likely_human
  else if String.eqb v "uncertain" then Some uncertain
  else None.

(** The threshold rule: [>= 0.7] likely_ai, [<= 0.3] likely_human. *)
Definition threshold_verdict (likelihood : Q) : AIVerdict :=
  if Qle_bool (7 # 10) likelihood then likely_ai
  else if Qle_bool likelihood (3 # 10) then likely_human
  else uncertain.

(** Lines 80-105 of aiGeneratedDetector.ts: clamp, then keep a valid verdict
    or derive one from the likelihood. *)
Definition enforce_verdict (rawLikelihood : Q) (v : string) : AIDetectionResult :=
  let likelihood := Qmax (1 # 100) (Qmin (99 # 100) rawLikelihood) in
  let finalVerdict :=
    match verdict_of_string v with
    | Some verdict => verdict
    | None => threshold_verdict likelihood
    end in
  mkAI likelihood finalVerdict.

Definition AI_CRITICAL : list string :=
  ["502"; "500"; "503"; "504"; "5xx"; "network"; "fetch failed"; "timeout";
   "UPSTREAM_ERROR"; "BAD_REQUEST"].

Definition detect_catch (error : jsval) : outcome AIDetectionResult :=
  let? errorMessage := JS.error_message error in
  if any_includes errorMessage AI_CRITICAL then
    if negb (Str.includes errorMessage "UPSTREAM_ERROR")
       && negb (Str.includes errorMessage "BAD_REQUEST")
    then Throw (JS.mk_error ("UPSTREAM_ERROR: AI detection service error: " ++ errorMessage))
    else Throw error
  else Ret (mkAI (1 # 2) uncertain).

(** [fullText.slice(0, MAX_TEXT_LENGTH).trim()] *)
Definition textToAnalyze (fullText : string) : string :=
  Str.trim (Str.slice fullText 0 MAX_TEXT_LENGTH).

Definition detectAIGeneratedText (env : Env) (fullText : string) : outcome AIDetectionResult :=
  if negb (gemini_key env) then
    Throw (JS.mk_error "BAD_REQUEST: Missing GEMINI_API_KEY on server.")
  else
    let t := textToAnalyze fullText in
    match cache_get_ai env (Key.getAICacheKey t) with
    | Some cached => Ret cached
    | None =>
        match gemini_ai env t with
        | Ret (Some (l, v)) => Ret (enforce_verdict l v)
        | Ret None => Ret (mkAI (1 # 2) uncertain)
        | Throw e => detect_catch e
        end
    end.

(* ------------------------------------------------------------------ *)
(** ** Aggregator ([calculatePlagiarismPercentage], [determineRiskLevel]) *)

(** [[...segs].sort((a, b) => a.startIndex - b.startIndex)]: a stable sort,
    as Array.prototype.sort is. [sort_segments (x :: r)] inserts [x] before
    the first segment of the sorted [r] that does not start before it, so
    segments with equal [startIndex] keep their order. *)
Fixpoint insert_seg (s : SuspiciousSegment) (l : list SuspiciousSegment) : list SuspiciousSegment :=
  match l with
  | [] => [s]
  | x :: r => if Nat.leb (seg_startIndex s) (seg_startIndex x) then s :: l else x :: insert_seg s r
  end.

Fixpoint sort_segments (l : list SuspiciousSegment) : list SuspiciousSegment :=
  match l with
  | [] => []
  | x :: r => insert_seg x (sort_segments r)
  end.

(** The merge loop [for (let i = 1; ...)] with state
    [(currentStart, currentEnd, totalSuspiciousChars)]. *)
Fixpoint merge_loop (segs : list SuspiciousSegment) (currentStart currentEnd : nat) (total : Z)
  : Z :=
  match segs with
  | [] => (total + (Z.of_nat currentEnd - Z.of_nat currentStart))%Z
  | segment :: rest =>
      if Nat.leb (seg_startIndex segment) currentEnd then
        merge_loop rest currentStart (Nat.max currentEnd (seg_endIndex segment)) total
      else
        merge_loop rest (seg_startIndex segment) (seg_endIndex segment)
                   (total + (Z.of_nat currentEnd - Z.of_nat currentStart))%Z
  end.

Definition clamp_0_100 (p : Q) : Q := Qmin 100%Q (Qmax 0%Q p).

Definition calculatePlagiarismPercentage (textLength : nat) (suspiciousSegments : list SuspiciousSegment)
  : Q :=
  if Nat.eqb textLength 0 then 0%Q
  else
    match sort_segments suspiciousSegments with
    | [] => 0%Q
    | first :: rest =>
        let totalSuspiciousChars :=
          merge_loop rest (seg_startIndex first) (seg_endIndex first) 0%Z in
        clamp_0_100 ((inject_Z totalSuspiciousChars / inject_Z (Z.of_nat textLength)) * 100)%Q
    end.

Definition determineRiskLevel (plagiarismPercentage aiLikelihood : Q) : RiskLevel :=
  let combinedScore := (plagiarismPercentage * (6 # 10) + aiLikelihood * 100 * (4 # 10))%Q in
  if Qle_bool 60%Q combinedScore then high
  else if Qle_bool 30%Q combinedScore then medium
  else low.

(* ------------------------------------------------------------------ *)
(** ** A state-and-exception monad for the pipeline                    *)

(** The state is the list of [startIndex]es of the chunks whose analysis
    was started, in order; it records which batches ran. *)
Definition M (A : Type) : Type := list nat -> outcome A * list nat.

Definition mret {A} (a : A) : M A := fun log => (Ret a, log).
Definition mbind {A B} (m : M A) (k : A -> M B) : M B :=
  fun log => match m log with
             | (Ret a, log') => k a log'
             | (Throw e, log') => (Throw e, log')
             end.
Definition lift {A} (o : outcome A) : M A := fun log => (o, log).
Definition mthrow {A} (e : jsval) : M A := fun log => (Throw e, log).
Definition tell (l : list nat) : M unit := fun log => (Ret tt, log ++ l).
(** [try { m } catch (e) { h(e) }] *)
Definition mcatch {A} (m : M A) (h : jsval -> M A) : M A :=
  fun log => match m log with
             | (Ret a, log') => (Ret a, log')
             | (Throw e, log') => h e log'
             end.

Notation "'let*' x ':=' m 'in' k" := (mbind m (fun x => k))
  (at level 200, x name, m at level 100, k at level 200).

(* ------------------------------------------------------------------ *)
(** ** Concurrency controller ([processChunksConcurrently])             *)

(** A chunk task that did not reject: a segment or none, or an error
    absorbed by the task's catch (with whether it counts as unscored). *)
Inductive task_result :=
| TDone (s : option SuspiciousSegment)
| TAbsorbed (err : jsval) (unscored : bool).

(** The [try] block of the per-chunk task. *)
Definition chunk_body (env : Env) (chunk : TextChunk) : outcome (option SuspiciousSegment) :=
  let? searchResults := searchWebForChunk env (ctext chunk) in
  let? r := score env chunk searchResults in
  if suspicious r && negb (Nat.eqb (length (matches r)) 0) then
    let preview := Str.trim (Str.slice (ctext chunk) 0 100) in
    Ret (Some (mkSeg (startIndex chunk) (endIndex chunk) preview (similarityScore r) (matches r)))
  else Ret None.

(** The [catch] block of the per-chunk task. *)
Definition chunk_catch (error : jsval) : outcome task_result :=
  let? err :=
    if JS.instanceof_Error error then Ret error
    else let? s := JS.String_ (if JS.truthy error then error else JStr "Unknown error") in
         Ret (JS.mk_error s) in
  let? errorMessage := JS.error_message err in
  let isUpstreamWarning := Str.includes errorMessage "UPSTREAM_WARNING" in
  if Str.includes errorMessage "BAD_REQUEST" || Str.includes errorMessage "UPSTREAM_ERROR"
  then Throw err
  else Ret (TAbsorbed err (negb isUpstreamWarning)).

Definition chunk_task (env : Env) (chunk : TextChunk) : outcome task_result :=
  match chunk_body env chunk with
  | Ret s => Ret (TDone s)
  | Throw e => chunk_catch e
  end.

Record ProcessResult := mkPR {
  segments : list SuspiciousSegment;
  unscoredCount : nat;
  errors : list jsval;
}.

Definition add_task (acc : ProcessResult) (t : task_result) : ProcessResult :=
  match t with
  | TDone (Some s) => mkPR (segments acc ++ [s]) (unscoredCount acc) (errors acc)
  | TDone None => acc
  | TAbsorbed err counted =>
      mkPR (segments acc) (if counted then S (unscoredCount acc) else unscoredCount acc)
           (errors acc ++ [err])
  end.

Fixpoint rejections (l : list (outcome task_result)) : list jsval :=
  match l with
  | [] => []
  | Throw e :: r => e :: rejections r
  | Ret _ :: r => rejections r
  end.

Fixpoint fulfilled (l : list (outcome task_result)) : list task_result :=
  match l with
  | [] => []
  | Ret t :: r => t :: fulfilled r
  | Throw _ :: r => fulfilled r
  end.

(** The [for (let i = 0; i < chunks.length; i += MAX_CONCURRENT_CHUNKS)] loop:
    every chunk of the batch is started; [await Promise.all(...)] rejects
    when one of them rejects, which ends the loop. *)
Fixpoint process_loop (fuel : nat) (env : Env) (chunks : list TextChunk) (i : nat)
    (acc : ProcessResult) : M ProcessResult :=
  match fuel with
  | 0 => mret acc
  | S f =>
      if Nat.ltb i (length chunks) then
        let batch := firstn MAX_CONCURRENT_CHUNKS (skipn i chunks) in
        let* _ := tell (map startIndex batch) in
        let outs := map (chunk_task env) batch in
        match rejections outs with
        | [] => process_loop f env chunks (i + MAX_CONCURRENT_CHUNKS)
                  (fold_left add_task (fulfilled outs) acc)
        | rs => mthrow (first_rejection env rs)
        end
      else mret acc
  end.

Definition processChunksConcurrently (env : Env) (chunks : list TextChunk) : M ProcessResult :=
  let* r := process_loop (length chunks) env chunks 0 (mkPR [] 0 []) in
  mret (mkPR (sort_segments (segments r)) (unscoredCount r) (errors r)).

(* ------------------------------------------------------------------ *)
(** ** [checkPlagiarism] (plagiarismChecker.ts)                         *)

Definition extraction_catch (error : jsval) : outcome string :=
  let? errorMessage := JS.error_message error in
  if Str.includes errorMessage "BAD_REQUEST" || Str.includes errorMessage "EXTRACTION_ERROR"
  then Throw error
  else Throw (JS.mk_error ("EXTRACTION_ERROR: " ++ errorMessage)).

(** The [catch] around [processChunksConcurrently]; [segments] there is the
    variable of [checkPlagiarism], still [[]] when the call rejected. *)
Definition processing_catch (segments_so_far : list SuspiciousSegment) (error : jsval)
  : outcome (ProcessResult * AnalysisStatus) :=
  if Nat.ltb 0 (length segments_so_far) then
    Ret (mkPR segments_so_far 0 [], partial_success)
  else
    let? errorMessage :=
      if JS.instanceof_Error error then let? m := JS.get error "message" in JS.String_ m
      else JS.String_ error in
    Throw (JS.mk_error ("UPSTREAM_ERROR: " ++ errorMessage)).

Definition checkPlagiarism (env : Env) (input : jsval) : M PlagiarismReport :=
  let* fullText := lift (match extractTextFromInput env input with
                         | Ret t => Ret t
                         | Throw e => extraction_catch e
                         end) in
  let textLength := String.length fullText in
  let chunks := chunkText fullText in
  let totalChunks := length chunks in
  let chunksToProcess := firstn MAX_CHUNKS_TO_PROCESS chunks in
  let wasLimited := Nat.ltb (length chunksToProcess) totalChunks in
  let* processed :=
    mcatch (let* result := processChunksConcurrently env chunksToProcess in
            let status :=
              if Nat.ltb 0 (unscoredCount result) || wasLimited
                 || Nat.ltb 0 (length (errors result))
              then partial_success else success in
            mret (result, status))
           (fun e => lift (processing_catch [] e)) in
  let '(result, analysisStatus) := processed in
  let '(aiLikelihood, aiVerdict, analysisStatus) :=
    match detectAIGeneratedText env fullText with
    | Ret aiResult => (likelihood aiResult, verdict aiResult, analysisStatus)
    | Throw _ =>
        (1 # 2, uncertain,
          match analysisStatus with success => partial_success | s => s end)
    end in
  let plagiarismPercentage := calculatePlagiarismPercentage textLength (segments result) in
  let riskLevel := determineRiskLevel plagiarismPercentage aiLikelihood in
  mret (mkReport textLength plagiarismPercentage riskLevel (segments result)
                 aiLikelihood aiVerdict analysisStatus).

(* ------------------------------------------------------------------ *)
(** ** [runPlagiarismPipeline]                                          *)

Definition is_object (v : jsval) : bool :=
  match v with JObj _ _ | JNull => true | _ => false end.

(** The [catch (err: any)] block. *)
Definition pipeline_catch (err : jsval) : outcome PipelineResult :=
  let? m := JS.get_opt err "message" in
  let? raw :=
    if JS.truthy m then JS.String_ m
    else
      let? t := JS.call_toString_opt err in
      if JS.truthy t then JS.String_ t else Ret "Unknown error" in
  let errorType :=
    if Str.startsWith raw "BAD_REQUEST:" then bad_request
    else if Str.startsWith raw "EXTRACTION_ERROR:" then extraction_error
    else if Str.startsWith raw "UPSTREAM_ERROR:" then upstream_error
    else analysis_error in
  let message :=
    Str.trim (Str.replace "UPSTREAM_ERROR:" ""
               (Str.replace "EXTRACTION_ERROR:" "" (Str.replace "BAD_REQUEST:" "" raw))) in
  Ret (mkResult false None (Some errorType)
         (Some (if String.eqb message "" then "An unexpected error occurred during analysis."
                else message))).

Definition bad_request_result (msg : string) : PipelineResult :=
  mkResult false None (Some bad_request) (Some msg).

(** The [try] block. The [!report || typeof report !== "object"] check never
    fires: [checkPlagiarism] resolves to a report object. *)
Definition pipeline_body (env : Env) (input : jsval) : M PipelineResult :=
  if negb (JS.truthy input) || negb (is_object input) then
    mret (bad_request_result "Invalid input: expected an object with 'text' or 'fileBuffer'.")
  else
    let* text := lift (JS.get_opt input "text") in
    let hasText :=
      match text with
      | JStr s => Nat.ltb 0 (String.length (Str.trim s))
      | _ => false
      end in
    let* fileBuffer := lift (JS.get_opt input "fileBuffer") in
    let hasFile := JS.truthy fileBuffer in
    if negb hasText && negb hasFile then
      mret (bad_request_result "Please provide either text or an uploaded document.")
    else
      let* r := checkPlagiarism env input in
      mret (mkResult true (Some r) None None).

Definition runPlagiarismPipeline (env : Env) (input : jsval) : M PipelineResult :=
  mcatch (pipeline_body env input) (fun err => lift (pipeline_catch err)).

(** De-overlapped concatenation of a chunk list: the first chunk whole, then
    each next chunk without the characters it shares with its predecessor. *)
Fixpoint deoverlap_rest (prev : TextChunk) (cs : list TextChunk) : list ascii :=
  match cs with
  | [] => []
  | c :: r => skipn (endIndex prev - startIndex c) (Str.chars (ctext c)) ++ deoverlap_rest c r
  end.

Definition deoverlap_from (cs : list TextChunk) : list ascii :=
  match cs with
  | [] => []
  | c :: r => Str.chars (ctext c) ++ deoverlap_rest c r
  end.

Definition deoverlap_concat (cs : list TextChunk) : string := Str.of_chars (deoverlap_from cs).

(* ------------------------------------------------------------------ *)
(** ** [retryWithBackoff] (src/unnamed/part_011)                        *)

(** The markers of [isRetryable]. *)
Definition RETRYABLE : list string :=
  ["network"; "timeout"; "502"; "500"; "503"; "504"; "429"; "ECONNRESET"; "ETIMEDOUT"].

(** [Math.min(initialDelay * Math.pow(2, attempt), maxDelay)] *)
Definition backoff_delay (initialDelay maxDelay : Q) (attempt : nat) : Q :=
  Qmin (initialDelay * inject_Z (2 ^ Z.of_nat attempt)) maxDelay.

(** The [for (let attempt = 0; attempt <= maxRetries; attempt++)] loop. [fn k]
    is the completion of the [k]-th call of [fn] (counted from 0) and
    [random k] the value of [Math.random()] after it. The result is the
    completion, the number of calls of [fn], and the delays waited, in order. *)
Fixpoint retry_loop {A} (fn : nat -> outcome A) (random : nat -> Q) (maxRetries : nat)
    (initialDelay maxDelay : Q) (fuel attempt : nat) (lastError : jsval)
  : outcome A * nat * list Q :=
  match fuel with
  | 0 => (Throw lastError, attempt, [])
  | S f =>
      match fn attempt with
      | Ret v => (Ret v, S attempt, [])
      | Throw err =>
          if Nat.eqb attempt maxRetries then (Throw err, S attempt, [])
          else
            match JS.error_message err with
            | Throw e => (Throw e, S attempt, [])
            | Ret errorMessage =>
                if negb (any_includes errorMessage RETRYABLE) then (Throw err, S attempt, [])
                else
                  let delay := backoff_delay initialDelay maxDelay attempt in
                  let jitter := (random attempt * (3 # 10) * delay)%Q in
                  let '(r, calls, delays) :=
                    retry_loop fn random maxRetries initialDelay maxDelay f (S attempt) err in
                  (r, calls, (delay + jitter)%Q :: delays)
            end
      end
  end.

Definition retryWithBackoff {A} (fn : nat -> outcome A) (random : nat -> Q) (maxRetries : nat)
    (initialDelay maxDelay : Q) : outcome A * nat * list Q :=
  retry_loop fn random maxRetries initialDelay maxDelay (S maxRetries) 0 JUndef.

(* ------------------------------------------------------------------ *)
(** ** Concrete environments and inputs                                *)

Definition sample_text : string :=
  "The quick brown fox jumps over the lazy dog near the riverbank.".

Definition text_input (s : string) : jsval := JObj ProtoObject [("text", JStr s)].

(** Both keys set, empty caches, no web results, nothing suspicious, and a
    classifier answering [{likelihood, verdict}]. *)
Definition sample_env (l : Q) (v : string) : Env :=
  mkEnv true true (fun _ => None) (fun _ => Ret []) (fun _ _ => Ret (mkScore false 0 []))
        (fun _ => None) (fun _ => Ret (Some (l, v)))
        (fun _ => Ret JUndef) (fun _ => Ret JUndef) (fun _ => Ret JUndef)
        (fun rs => hd JUndef rs).

(** [sample_env] without [SEARCH_API_KEY]. *)
Definition no_search_key_env : Env :=
  mkEnv false true (fun _ => None) (fun _ => Ret []) (fun _ _ => Ret (mkScore false 0 []))
        (fun _ => None) (fun _ => Ret (Some (1 # 2, "uncertain")))
        (fun _ => Ret JUndef) (fun _ => Ret JUndef) (fun _ => Ret JUndef)
        (fun rs => hd JUndef rs).

(** [sample_env] whose search requests all fail with [msg]. *)
Definition failing_search_env (msg : string) : Env :=
  mkEnv true true (fun _ => None) (fun _ => Throw (JS.mk_error msg))
        (fun _ _ => Ret (mkScore false 0 []))
        (fun _ => None) (fun _ => Ret (Some (1 # 2, "uncertain")))
        (fun _ => Ret JUndef) (fun _ => Ret JUndef) (fun _ => Ret JUndef)
        (fun rs => hd JUndef rs).

(** A thrown object whose [toString] throws [thrown_inner]: an object without
    prototype, whose [valueOf] returns a string with a [BAD_REQUEST] marker. *)
Definition thrown_inner : jsval :=
  JObj ProtoNull [("valueOf", JFun false (JStr "BAD_REQUEST: x"))].
Definition thrown_outer : jsval :=
  JObj ProtoObject [("toString", JFun true thrown_inner)].

(** [sample_env] whose PDF decoder throws [thrown_outer]. *)
Definition throwing_pdf_env : Env :=
  mkEnv true true (fun _ => None) (fun _ => Ret []) (fun _ _ => Ret (mkScore false 0 []))
        (fun _ => None) (fun _ => Ret (Some (1 # 2, "uncertain")))
        (fun _ => Throw thrown_outer) (fun _ => Ret JUndef) (fun _ => Ret JUndef)
        (fun rs => hd JUndef rs).

Definition pdf_input : jsval :=
  JObj ProtoObject [("fileBuffer", JBool true); ("fileName", JStr "a.pdf")].

(* ------------------------------------------------------------------ *)
(** ** The merge of the plagiarism percentage, as the specification words it *)

(** Sort by [startIndex]; walk the segments: when the next one starts at or
    before [currentEnd], extend [currentEnd]; otherwise flush the current
    range and start a new one. The result is the list of merged ranges. *)
Fixpoint spec_merged_ranges (segs : list SuspiciousSegment) (cur : nat * nat)
  : list (nat * nat) :=
  match segs with
  | [] => [cur]
  | s :: r =>
      if Nat.leb (seg_startIndex s) (snd cur)
      then spec_merged_ranges r (fst cur, Nat.max (snd cur) (seg_endIndex s))
      else cur :: spec_merged_ranges r (seg_startIndex s, seg_endIndex s)
  end.

(** The sum of the merged ranges' lengths. *)
Definition spec_range_sum (rs : list (nat * nat)) : Z :=
  fold_right (fun r acc => (Z.of_nat (snd r) - Z.of_nat (fst r) + acc)%Z) 0%Z rs.

(** Merged coverage divided by the text length, times 100, clamped. *)
Definition spec_plagiarism_percentage (textLength : nat) (segs : list SuspiciousSegment) : Q :=
  match sort_segments segs with
  | [] => 0%Q
  | first :: rest =>
      clamp_0_100
        ((inject_Z (spec_range_sum (spec_merged_ranges rest (seg_startIndex first, seg_endIndex first)))
          / inject_Z (Z.of_nat textLength)) * 100)%Q
  end.

(** A text of 1000 letters [a]. *)
Definition prefix_1000_a : list ascii := repeat "a"%char 1000.

(** The error [searchWebForChunk] throws without [SEARCH_API_KEY]. *)
Definition missing_search_key_error : jsval :=
  JS.mk_error "BAD_REQUEST: Missing SEARCH_API_KEY on server.".

(** The first (and only) chunk of [sample_text]. *)
Definition first_sample_chunk : TextChunk := mkChunk sample_text 0 63.

(** A function failing twice with HTTP 503 and then returning [7]. *)
Definition flaky_fn (k : nat) : outcome nat :=
  if Nat.ltb k 2 then Throw (JS.mk_error "SerpAPI request failed: 503") else Ret 7.

(** A text input of 200001 letters. *)
Definition long_text : string := Str.of_chars (repeat "a"%char 200001).

(** The input of the unit test of [normalizeText] on long texts:
    ["A".repeat(250_000)]. *)
Definition test_long_A : string := Str.of_chars (repeat "A"%char (250 * 1000)).

(* ------------------------------------------------------------------ *)
(** ** Similarity scorer ([similarityScorer.ts])                       *)

(** [getSimilarityCacheKey] (utils/cache.ts): the two loops are [hash]. *)
Definition getSimilarityCacheKey (chunkText snippetText : string) : string :=
  "similarity:" ++ Key.toString36 (Z.abs (Key.hash chunkText)) ++ ":"
  ++ Key.toString36 (Z.abs (Key.hash snippetText)).

Definition TOP_N_RESULTS : nat := 5.

(** The markers of the two [catch] blocks of similarityScorer.ts. *)
Definition SCORE_CRITICAL : list string :=
  ["502"; "500"; "503"; "504"; "5xx"; "network"; "fetch failed"; "timeout"; "service error"].

(** [Math.max(0, Math.min(1, x))] *)
Definition clamp_0_1 (x : Q) : Q := Qmax 0 (Qmin 1 x).

(** [source.title || ""] *)
Definition or_empty (s : option string) : string :=
  match s with Some t => t | None => "" end.

(** [`${source.title || ""}\n${source.snippet || ""}`.trim()] *)
Definition sourceText (source : WebSearchResult) : string :=
  Str.trim (or_empty (wsr_title source) ++ String Normalize.nl EmptyString
            ++ or_empty (wsr_snippet source)).

(** The collaborators of [scoreChunkAgainstSource]: the similarity cache
    ([Some x] when [getCache] gives a number [x]), and
    [retryWithBackoff(async () => Gemini ...)] on the prompt built from the
    chunk's first 1000 and the source's first 500 characters, up to the JSON
    parse: [Some x] when the reply holds a numeric [similarity] [x], [None]
    when it does not (the retried function then returns 0). The cache is the
    store as [getCache] reads it: the [setCache] write after a model answer
    is made by [set_similarity] and read back by the later sources of the
    same [scoreChunkAgainstSources] loop (the LRU cache holds 100 entries and
    a loop writes at most five). Writes that other chunks, scored at the same
    time, make in between are outside this function and not modelled. *)
Record ScorerEnv := mkScorerEnv {
  sim_cache_get : string -> option Q;
  sim_llm : string -> string -> outcome (option Q);
}.

(** [setCache(cacheKey, similarity, CACHE_TTL_SECONDS)]. *)
Definition set_similarity (senv : ScorerEnv) (key : string) (q : Q) : ScorerEnv :=
  mkScorerEnv (fun k => if String.eqb k key then Some q else sim_cache_get senv k)
              (sim_llm senv).

(** The [catch] block of [scoreChunkAgainstSource] (its [error] is [err]). *)
Definition score_catch (err : jsval) : outcome Q :=
  let? errorMessage := JS.error_message err in
  if any_includes errorMessage SCORE_CRITICAL then Throw err else Ret 0%Q.

(** [scoreChunkAgainstSource(ai, chunkText, source)]: its completion and the
    cache after it. *)
Definition scoreChunkAgainstSource_st (senv : ScorerEnv) (chunkText : string)
    (source : WebSearchResult) : outcome Q * ScorerEnv :=
  let st := sourceText source in
  let cacheKey := getSimilarityCacheKey chunkText st in
  match sim_cache_get senv cacheKey with
  | Some cached => (Ret cached, senv)
  | None =>
      match sim_llm senv (Str.slice chunkText 0 1000) (Str.slice st 0 500) with
      | Ret reply =>
          let similarity :=
            match reply with Some x => clamp_0_1 x | None => 0%Q end in
          (Ret similarity, set_similarity senv cacheKey similarity)
      | Throw err => (score_catch err, senv)
      end
  end.

(** The completion of [scoreChunkAgainstSource] alone. *)
Definition scoreChunkAgainstSource (senv : ScorerEnv) (chunkText : string)
    (source : WebSearchResult) : outcome Q :=
  fst (scoreChunkAgainstSource_st senv chunkText source).

(** The [for (const source of topSources)] loop of
    [scoreChunkAgainstSources], each source scored by
    [scoreChunkAgainstSource(ai, chunk.text, source)] on the cache the
    previous ones left. A critical error is saved
    ([new Error(String(error))] when it is not an [Error]), the loop breaks
    and the error is thrown. *)
Fixpoint score_loop (chunkText : string) (senv : ScorerEnv)
    (sources : list WebSearchResult) (matches : list SourceMatch) : outcome (list SourceMatch) :=
  match sources with
  | [] => Ret matches
  | source :: rest =>
      match scoreChunkAgainstSource_st senv chunkText source with
      | (Ret similarity, senv') =>
          score_loop chunkText senv' rest
            (if Qle_bool similarity (3 # 10) then matches
             else matches ++ [mkMatch (wsr_url source) (wsr_title source)
                                      (wsr_snippet source) similarity])
      | (Throw err, senv') =>
          let? errorMessage := JS.error_message err in
          if any_includes errorMessage SCORE_CRITICAL then
            let? criticalError :=
              if JS.instanceof_Error err then Ret err
              else let? s := JS.String_ err in Ret (JS.mk_error s) in
            Throw criticalError
          else score_loop chunkText senv' rest matches
      end
  end.

(** [matches.sort((a, b) => b.similarityScore - a.similarityScore)]: a
    stable sort by decreasing similarity. *)
Fixpoint insert_match (m : SourceMatch) (l : list SourceMatch) : list SourceMatch :=
  match l with
  | [] => [m]
  | x :: r =>
      if Qle_bool (sm_similarityScore x) (sm_similarityScore m) then m :: l
      else x :: insert_match m r
  end.

Fixpoint sort_matches (l : list SourceMatch) : list SourceMatch :=
  match l with
  | [] => []
  | x :: r => insert_match x (sort_matches r)
  end.

Definition scoreChunkAgainstSources (env : Env) (senv : ScorerEnv) (chunk : TextChunk)
    (sources : list WebSearchResult) : outcome ScoreResult :=
  if Nat.eqb (length sources) 0 then Ret (mkScore false 0 [])
  else if negb (gemini_key env) then Ret (mkScore false 0 [])
  else
    let topSources := firstn TOP_N_RESULTS sources in
    let? matches := score_loop (ctext chunk) senv topSources [] in
    let matches := sort_matches matches in
    let maxSimilarity :=
      match matches with m :: _ => sm_similarityScore m | [] => 0%Q end in
    Ret (mkScore (negb (Qle_bool maxSimilarity (1 # 2))) maxSimilarity matches).

(** The similarity cache key of a source for a chunk text. *)
Definition sim_key (chunkText : string) (source : WebSearchResult) : string :=
  getSimilarityCacheKey chunkText (sourceText source).

(** Two scorer environments with the same model that read the same cache
    value at every key but [K]. *)
Definition agree_except (K : string) (a b : ScorerEnv) : Prop :=
  sim_llm a = sim_llm b /\ forall k, k <> K -> sim_cache_get a k = sim_cache_get b k.

(** Two search results; the scorer's model rates the first one 0.9 and the
    second 0.1, and nothing is cached. *)
Definition source_alpha : WebSearchResult := mkWSR "https://a.example" (Some "A") (Some "alpha").
Definition source_beta : WebSearchResult := mkWSR "https://b.example" (Some "B") (Some "beta").
Definition sample_scorer : ScorerEnv :=
  mkScorerEnv (fun _ => None)
    (fun _ snippet => if any_includes snippet ["alpha"] then Ret (Some (9 # 10)) else Ret (Some (1 # 10))).
(** [sample_scorer] whose model fails with an HTTP 502 on the second result. *)
Definition failing_scorer : ScorerEnv :=
  mkScorerEnv (fun _ => None)
    (fun _ snippet => if any_includes snippet ["alpha"] then Ret (Some (9 # 10))
                      else Throw (JS.mk_error "Gemini request failed: 502")).


(** A text with a TAB and a CRLF line break, and its normalized form. *)
Definition messy_text : string :=
  String.append "A" (String Normalize.tab (String Normalize.cr (String Normalize.nl sample_text))).
Definition messy_text_normalized : string :=
  String.append "A " (String Normalize.nl sample_text).

(** [sample_env] whose PDF decoder reads the few characters of a scanned
    document. *)
Definition scanned_pdf_env : Env :=
  mkEnv true true (fun _ => None) (fun _ => Ret []) (fun _ _ => Ret (mkScore false 0 []))
        (fun _ => None) (fun _ => Ret (Some (1 # 2, "uncertain")))
        (fun _ => Ret (JStr "Page 1")) (fun _ => Ret JUndef) (fun _ => Ret JUndef)
        (fun rs => hd JUndef rs).

(** [sample_env] whose classifier requests all fail with [msg]. *)
Definition failing_ai_env (msg : string) : Env :=
  mkEnv true true (fun _ => None) (fun _ => Ret []) (fun _ _ => Ret (mkScore false 0 []))
        (fun _ => None) (fun _ => Throw (JS.mk_error msg))
        (fun _ => Ret JUndef) (fun _ => Ret JUndef) (fun _ => Ret JUndef)
        (fun rs => hd JUndef rs).

(** [sample_env] whose search finds [source_alpha] for every chunk and whose
    scorer finds every chunk copied from it. *)
Definition copied_env : Env :=
  mkEnv true true (fun _ => None) (fun _ => Ret [source_alpha])
        (fun _ _ => Ret (mkScore true (9 # 10) [mkMatch "https://a.example" (Some "A") (Some "alpha") (9 # 10)]))
        (fun _ => None) (fun _ => Ret (Some (1 # 2, "uncertain")))
        (fun _ => Ret JUndef) (fun _ => Ret JUndef) (fun _ => Ret JUndef)
        (fun rs => hd JUndef rs).

(** The order of the risk levels. *)
Definition risk_rank (r : RiskLevel) : nat :=
  match r with low => 0 | medium => 1 | high => 2 end.

(** A text of 1400 letters. *)
Definition text_1400 : string := Str.of_chars (repeat "a"%char 1400).

(* ================================================================== *)
(** * Properties                                                       *)
(* ================================================================== *)

Example getChunkCacheKey_abc : Key.getChunkCacheKey "abc" = "chunk:22ci".
Proof. vm_compute. reflexivity. Qed.

(** ** Chunker *)

Lemma chars_length (s : string) : length (Str.chars s) = String.length s.
Proof. induction s; simpl; auto. Qed.

Lemma chars_of_chars (l : list ascii) : Str.chars (Str.of_chars l) = l.
Proof. apply list_ascii_of_string_of_list_ascii. Qed.

Lemma chunk_loop_nil (fuel : nat) (T : string) (s : nat) :
  String.length T <= s -> chunk_loop fuel T s = [].
Proof.
  intros H; destruct fuel as [|f]; simpl; [reflexivity|].
  destruct (Nat.ltb_spec s (String.length T)); [lia|reflexivity].
Qed.

Lemma chunk_loop_cons (f : nat) (T : string) (s : nat) :
  s < String.length T ->
  chunk_loop (S f) T s =
    mkChunk (Str.slice T s (Nat.min (s + CHUNK_SIZE) (String.length T))) s
            (Nat.min (s + CHUNK_SIZE) (String.length T))
    :: (if Nat.eqb (Nat.min (s + CHUNK_SIZE) (String.length T)) (s + (CHUNK_SIZE - CHUNK_OVERLAP))
        then [] else chunk_loop f T (s + (CHUNK_SIZE - CHUNK_OVERLAP))).
Proof.
  intros H; cbn [chunk_loop].
  destruct (Nat.ltb_spec s (String.length T)); [|lia].
  destruct (Nat.eqb _ _); reflexivity.
Qed.

Lemma chunk_loop_in (fuel : nat) : forall (T : string) (s : nat) (c : TextChunk),
  In c (chunk_loop fuel T s) ->
  ctext c = Str.slice T (startIndex c) (endIndex c) /\ s <= startIndex c /\
  startIndex c < String.length T /\
  endIndex c = Nat.min (startIndex c + CHUNK_SIZE) (String.length T).
Proof.
  induction fuel as [|f IH]; intros T s c Hin; [destruct Hin|].
  destruct (Nat.ltb_spec s (String.length T)) as [Hs|Hs].
  - rewrite chunk_loop_cons in Hin by exact Hs.
    destruct Hin as [<-|Hin]; [simpl; repeat split; auto; lia|].
    destruct (Nat.eqb _ _); [destruct Hin|].
    destruct (IH _ _ _ Hin) as (? & ? & ? & ?); repeat split; auto.
    unfold CHUNK_SIZE, CHUNK_OVERLAP in *; lia.
  - rewrite chunk_loop_nil in Hin by exact Hs; destruct Hin.
Qed.

Lemma chunk_loop_head (fuel : nat) (T : string) (s : nat) (c : TextChunk) :
  nth_error (chunk_loop fuel T s) 0 = Some c -> startIndex c = s.
Proof.
  destruct fuel as [|f]; [discriminate|].
  destruct (Nat.ltb_spec s (String.length T)) as [Hs|Hs].
  - rewrite chunk_loop_cons by exact Hs; simpl; intros [= <-]; reflexivity.
  - rewrite chunk_loop_nil by exact Hs; discriminate.
Qed.

Lemma chunk_loop_next (fuel : nat) : forall (T : string) (s i : nat) (c1 c2 : TextChunk),
  nth_error (chunk_loop fuel T s) i = Some c1 ->
  nth_error (chunk_loop fuel T s) (S i) = Some c2 ->
  startIndex c2 = startIndex c1 + (CHUNK_SIZE - CHUNK_OVERLAP).
Proof.
  induction fuel as [|f IH]; intros T s i c1 c2 H1 H2; [destruct i; discriminate|].
  destruct (Nat.ltb_spec s (String.length T)) as [Hs|Hs].
  - rewrite chunk_loop_cons in H1, H2 by exact Hs.
    destruct (Nat.eqb _ _).
    + destruct i as [|i]; [discriminate|destruct i; discriminate].
    + destruct i as [|i].
      * simpl in H1, H2. injection H1 as <-. simpl.
        apply chunk_loop_head in H2; lia.
      * simpl in H1, H2. eapply IH; eassumption.
  - rewrite chunk_loop_nil in H1 by exact Hs; destruct i; discriminate.
Qed.

Lemma chunk_loop_last (fuel : nat) : forall (T : string) (s : nat) (d : TextChunk),
  String.length T - s < fuel -> s < String.length T ->
  endIndex (last (chunk_loop fuel T s) d) = String.length T.
Proof.
  induction fuel as [|f IH]; intros T s d Hf Hs; [lia|].
  rewrite chunk_loop_cons by exact Hs.
  destruct (Nat.eqb_spec (Nat.min (s + CHUNK_SIZE) (String.length T))
                         (s + (CHUNK_SIZE - CHUNK_OVERLAP))) as [He|He].
  - simpl. unfold CHUNK_SIZE, CHUNK_OVERLAP in *; lia.
  - destruct (Nat.ltb_spec (s + (CHUNK_SIZE - CHUNK_OVERLAP)) (String.length T)) as [Hn|Hn].
    + destruct (chunk_loop f T (s + (CHUNK_SIZE - CHUNK_OVERLAP))) eqn:E.
      * destruct f as [|f]; [lia|].
        rewrite chunk_loop_cons in E by exact Hn; discriminate.
      * match goal with |- endIndex (last (_ :: ?x :: ?l) _) = _ =>
          change (endIndex (last (x :: l) d) = String.length T) end.
        rewrite <- E. apply IH; [unfold CHUNK_SIZE, CHUNK_OVERLAP in *; lia|exact Hn].
    + rewrite (chunk_loop_nil f) by exact Hn. simpl.
      unfold CHUNK_SIZE, CHUNK_OVERLAP in *; lia.
Qed.

Lemma skipn_app_le {A} (k : nat) (l1 l2 : list A) :
  k <= length l1 -> skipn k (l1 ++ l2) = skipn k l1 ++ l2.
Proof.
  intros H; rewrite skipn_app. replace (k - length l1) with 0 by lia. reflexivity.
Qed.

Lemma chunk_loop_deoverlap (fuel : nat) : forall (T : string) (s : nat),
  String.length T - s < fuel ->
  deoverlap_from (chunk_loop fuel T s) = skipn s (Str.chars T).
Proof.
  induction fuel as [|f IH]; intros T s Hf.
  - rewrite chunk_loop_nil by lia. simpl.
    symmetry; apply skipn_all2. rewrite chars_length; lia.
  - destruct (Nat.ltb_spec s (String.length T)) as [Hs|Hs].
    2:{ rewrite chunk_loop_nil by exact Hs. simpl.
        symmetry; apply skipn_all2. rewrite chars_length; lia. }
    rewrite chunk_loop_cons by exact Hs.
    set (e := Nat.min (s + CHUNK_SIZE) (String.length T)).
    set (X := Str.chars T).
    assert (HX : length X = String.length T) by apply chars_length.
    assert (Hhead : Str.chars (Str.slice T s e) = firstn (e - s) (skipn s X))
      by (unfold Str.slice; apply chars_of_chars).
    assert (Hwhole : e = String.length T -> firstn (e - s) (skipn s X) = skipn s X).
    { intros Ee. apply firstn_all2. rewrite length_skipn; lia. }
    destruct (Nat.eqb_spec e (s + (CHUNK_SIZE - CHUNK_OVERLAP))) as [He|He].
    + cbn [deoverlap_from deoverlap_rest ctext]. rewrite app_nil_r, Hhead.
      apply Hwhole. unfold e, CHUNK_SIZE, CHUNK_OVERLAP in *; lia.
    + destruct (Nat.ltb_spec (s + (CHUNK_SIZE - CHUNK_OVERLAP)) (String.length T)) as [Hn|Hn].
      * set (s' := s + (CHUNK_SIZE - CHUNK_OVERLAP)) in *.
        assert (IHs := IH T s' ltac:(unfold s', CHUNK_SIZE, CHUNK_OVERLAP in *; lia)).
        destruct (chunk_loop f T s') as [|c' r'] eqn:E.
        { destruct f as [|f]; [lia|]. rewrite chunk_loop_cons in E by exact Hn; discriminate. }
        assert (Hc' : In c' (chunk_loop f T s')) by (rewrite E; left; reflexivity).
        destruct (chunk_loop_in f T s' c' Hc') as (Htext & _ & _ & Hend).
        assert (Hst : startIndex c' = s').
        { apply (chunk_loop_head f T s' c'). rewrite E; reflexivity. }
        cbn [deoverlap_from deoverlap_rest ctext endIndex] in *.
        rewrite Hhead.
        rewrite <- skipn_app_le.
        2:{ rewrite Htext. unfold Str.slice. rewrite chars_of_chars, length_firstn, length_skipn.
            rewrite chars_length. unfold e, s', CHUNK_SIZE, CHUNK_OVERLAP in *; lia. }
        rewrite IHs, Hst, skipn_skipn.
        replace (e - s' + s') with ((e - s) + s) by (unfold e, s', CHUNK_SIZE, CHUNK_OVERLAP in *; lia).
        rewrite <- skipn_skipn. apply firstn_skipn.
      * rewrite (chunk_loop_nil f) by exact Hn.
        cbn [deoverlap_from deoverlap_rest ctext]. rewrite app_nil_r, Hhead.
        apply Hwhole. unfold e, CHUNK_SIZE, CHUNK_OVERLAP in *; lia.
Qed.

(** C4: for every text T, chunkText T is empty exactly when T is empty and
    otherwise starts at index 0; every chunk is the slice of T between its
    indices, is non-empty, spans at most CHUNK_SIZE characters and ends
    within T; each next chunk starts CHUNK_SIZE - CHUNK_OVERLAP after its
    predecessor and no later than the predecessor's end (no gap); two
    consecutive chunks overlap by exactly CHUNK_OVERLAP characters unless
    the second one is the last chunk; the final chunk ends at length T; and
    the de-overlapped concatenation of the chunk texts is T. *)
Theorem chunkText_spec (T : string) :
  let chunks := chunkText T in
  (T = EmptyString -> chunks = []) /\
  (T <> EmptyString -> exists c rest, chunks = c :: rest /\ startIndex c = 0) /\
  (forall c, In c chunks ->
     ctext c = Str.slice T (startIndex c) (endIndex c) /\
     startIndex c < endIndex c /\
     endIndex c - startIndex c <= CHUNK_SIZE /\
     endIndex c <= String.length T) /\
  (forall i c1 c2, nth_error chunks i = Some c1 -> nth_error chunks (S i) = Some c2 ->
     startIndex c2 = startIndex c1 + (CHUNK_SIZE - CHUNK_OVERLAP) /\
     startIndex c2 <= endIndex c1 /\
     (S (S i) < length chunks -> endIndex c1 - startIndex c2 = CHUNK_OVERLAP)) /\
  (forall d, T <> EmptyString -> endIndex (last chunks d) = String.length T) /\
  deoverlap_concat chunks = T.
Proof.
  intros chunks. unfold chunks, chunkText.
  assert (Hpos : T <> EmptyString -> 0 < String.length T)
    by (destruct T; simpl; [congruence|lia]).
  split; [|split; [|split; [|split; [|split]]]].
  - intros ->. reflexivity.
  - intros HT. rewrite chunk_loop_cons by (apply Hpos; exact HT).
    eexists _, _; split; [reflexivity|reflexivity].
  - intros c Hc; apply chunk_loop_in in Hc.
    destruct Hc as (Ht & _ & Hlt & Hend).
    split; [exact Ht|]. unfold CHUNK_SIZE in *; lia.
  - intros i c1 c2 H1 H2.
    pose proof (chunk_loop_next _ _ _ _ _ _ H1 H2) as Hn.
    split; [exact Hn|split].
    + apply nth_error_In in H1, H2.
      apply chunk_loop_in in H1, H2.
      unfold CHUNK_SIZE, CHUNK_OVERLAP in *; lia.
    + intros Hlen.
      destruct (nth_error (chunk_loop (S (String.length T)) T 0) (S (S i))) as [c3|] eqn:H3.
      2:{ apply nth_error_None in H3; lia. }
      pose proof (chunk_loop_next _ _ _ _ _ _ H2 H3) as Hn'.
      apply nth_error_In in H1, H3.
      apply chunk_loop_in in H1, H3.
      unfold CHUNK_SIZE, CHUNK_OVERLAP in *; lia.
  - intros d HT. apply chunk_loop_last; [lia|apply Hpos; exact HT].
  - unfold deoverlap_concat. rewrite chunk_loop_deoverlap by lia.
    apply string_of_list_ascii_of_string.
Qed.

(** ** Cache keys *)

Lemma slice_0 (t : string) (n : nat) : Str.slice t 0 n = Str.of_chars (firstn n (Str.chars t)).
Proof. unfold Str.slice. rewrite Nat.sub_0_r. reflexivity. Qed.

Lemma getAICacheKey_firstn (t : string) :
  Key.getAICacheKey t = Key.getAICacheKey (Str.of_chars (firstn 1000 (Str.chars t))).
Proof.
  unfold Key.getAICacheKey. rewrite !slice_0. unfold Str.chars at 2.
  rewrite list_ascii_of_string_of_list_ascii, firstn_firstn. reflexivity.
Qed.

(** C10: the key of the authorship cache is a function of the first 1000
    characters only: texts with the same first 1000 characters get the same
    [getAICacheKey], and, with the classifier's key set, a result stored
    under the key of one document's text to analyze is what
    [detectAIGeneratedText] returns for every document whose text to
    analyze has the same first 1000 characters. *)
Theorem getAICacheKey_first_1000 (t1 t2 : string) :
  firstn 1000 (Str.chars t1) = firstn 1000 (Str.chars t2) ->
  Key.getAICacheKey t1 = Key.getAICacheKey t2 /\
  (forall env fullText1 fullText2 r,
     textToAnalyze fullText1 = t1 -> textToAnalyze fullText2 = t2 ->
     gemini_key env = true -> cache_get_ai env (Key.getAICacheKey t1) = Some r ->
     detectAIGeneratedText env fullText1 = Ret r /\ detectAIGeneratedText env fullText2 = Ret r).
Proof.
  intros Hpre.
  assert (Hk : Key.getAICacheKey t1 = Key.getAICacheKey t2).
  { rewrite (getAICacheKey_firstn t1), (getAICacheKey_firstn t2), Hpre. reflexivity. }
  split; [exact Hk|].
  intros env f1 f2 r H1 H2 Hg Hc.
  unfold detectAIGeneratedText. rewrite Hg, H1, H2, <- Hk, Hc. simpl. split; reflexivity.
Qed.

Lemma getAICacheKey_first_1000_witness :
  firstn 1000 (Str.chars (Str.of_chars (prefix_1000_a ++ ["x"%char])))
    = firstn 1000 (Str.chars (Str.of_chars (prefix_1000_a ++ ["y"%char]))) /\
  Key.getAICacheKey (Str.of_chars (prefix_1000_a ++ ["x"%char]))
    = Key.getAICacheKey (Str.of_chars (prefix_1000_a ++ ["y"%char])).
Proof.
  assert (H : firstn 1000 (Str.chars (Str.of_chars (prefix_1000_a ++ ["x"%char])))
              = firstn 1000 (Str.chars (Str.of_chars (prefix_1000_a ++ ["y"%char]))))
    by (vm_compute; reflexivity).
  split; [exact H|].
  exact (proj1 (getAICacheKey_first_1000 _ _ H)).
Defined.

(** ** Plagiarism percentage *)

Lemma insert_seg_perm (x : SuspiciousSegment) (l : list SuspiciousSegment) :
  Permutation (insert_seg x l) (x :: l).
Proof.
  induction l as [|y r IH]; simpl; [reflexivity|].
  destruct (Nat.leb _ _); [reflexivity|].
  rewrite IH. apply perm_swap.
Qed.

Lemma sort_segments_perm (l : list SuspiciousSegment) : Permutation (sort_segments l) l.
Proof.
  induction l as [|x r IH]; simpl; [reflexivity|].
  rewrite insert_seg_perm, IH. reflexivity.
Qed.

Lemma merge_loop_spec (segs : list SuspiciousSegment) : forall cs ce total,
  merge_loop segs cs ce total = (total + spec_range_sum (spec_merged_ranges segs (cs, ce)))%Z.
Proof.
  induction segs as [|x r IH]; intros cs ce total; simpl.
  - lia.
  - destruct (Nat.leb _ _).
    + apply IH.
    + rewrite IH. simpl. lia.
Qed.

Lemma merge_loop_pos (segs : list SuspiciousSegment) : forall cs ce total,
  (forall s, In s segs -> seg_startIndex s < seg_endIndex s) ->
  cs < ce -> (0 <= total)%Z -> (0 < merge_loop segs cs ce total)%Z.
Proof.
  induction segs as [|x r IH]; intros cs ce total Hs Hc Ht; simpl.
  - lia.
  - assert (Hx := Hs x (or_introl eq_refl)).
    assert (Hr : forall s, In s r -> seg_startIndex s < seg_endIndex s)
      by (intros s Hin; apply Hs; right; exact Hin).
    destruct (Nat.leb _ _).
    + apply IH; [exact Hr | lia | exact Ht].
    + apply IH; [exact Hr | exact Hx | lia].
Qed.

Lemma clamp_0_100_range (p : Q) : (0 <= clamp_0_100 p /\ clamp_0_100 p <= 100)%Q.
Proof.
  unfold clamp_0_100. split.
  - apply Q.min_glb; [discriminate|apply Q.le_max_l].
  - apply Q.le_min_l.
Qed.

Lemma clamp_0_100_pos (p : Q) : (0 < p)%Q -> (0 < clamp_0_100 p)%Q.
Proof.
  intros H. unfold clamp_0_100. apply Q.min_glb_lt; [reflexivity|].
  apply Qlt_le_trans with p; [exact H|apply Q.le_max_r].
Qed.

(** C3: for [textLength > 0], [calculatePlagiarismPercentage] equals the
    merged coverage as the specification words it, divided by the length,
    times 100, clamped; it lies in [0, 100]; and when every segment has
    [startIndex < endIndex] (as the segments built from chunks do), it is 0
    exactly when there is no segment. *)
Theorem calculatePlagiarismPercentage_spec (textLength : nat) (segs : list SuspiciousSegment) :
  0 < textLength ->
  calculatePlagiarismPercentage textLength segs = spec_plagiarism_percentage textLength segs /\
  (0 <= calculatePlagiarismPercentage textLength segs <= 100)%Q /\
  ((forall s, In s segs -> seg_startIndex s < seg_endIndex s) ->
   ((calculatePlagiarismPercentage textLength segs == 0)%Q <-> segs = [])).
Proof.
  intros HL.
  unfold calculatePlagiarismPercentage, spec_plagiarism_percentage.
  destruct (Nat.eqb_spec textLength 0) as [E|_]; [lia|].
  pose proof (sort_segments_perm segs) as Hperm.
  split; [|split].
  - destruct (sort_segments segs) as [|f r]; [reflexivity|].
    rewrite merge_loop_spec. reflexivity.
  - destruct (sort_segments segs) as [|f r]; [split; discriminate|].
    apply clamp_0_100_range.
  - intros Hs. destruct (sort_segments segs) as [|f r] eqn:Es.
    + split; [|reflexivity]. intros _. apply Permutation_nil. exact Hperm.
    + split; [|intros ->; apply Permutation_sym, Permutation_nil in Hperm; discriminate].
      intros H0. exfalso.
      assert (Hin : forall s, In s (f :: r) -> seg_startIndex s < seg_endIndex s)
        by (intros s Hin; apply Hs; eapply Permutation_in; eassumption).
      assert (Hpos : (0 < merge_loop r (seg_startIndex f) (seg_endIndex f) 0)%Z).
      { apply merge_loop_pos.
        - intros s Hr; apply Hin; right; exact Hr.
        - apply Hin; left; reflexivity.
        - lia. }
      assert (Hq : (0 < (inject_Z (merge_loop r (seg_startIndex f) (seg_endIndex f) 0)
                         / inject_Z (Z.of_nat textLength)) * 100)%Q).
      { apply Qmult_lt_0_compat; [|reflexivity].
        apply Qlt_shift_div_l.
        - unfold Qlt; simpl; lia.
        - rewrite Qmult_0_l. unfold Qlt; simpl; lia. }
      apply clamp_0_100_pos in Hq. rewrite H0 in Hq. apply (Qlt_irrefl 0). exact Hq.
Qed.

Lemma calculatePlagiarismPercentage_spec_witness :
  0 < 100 /\
  calculatePlagiarismPercentage 100 [mkSeg 10 30 "" 1 []; mkSeg 20 40 "" 1 []]
    = spec_plagiarism_percentage 100 [mkSeg 10 30 "" 1 []; mkSeg 20 40 "" 1 []].
Proof.
  split; [lia|].
  exact (proj1 (calculatePlagiarismPercentage_spec 100 _ ltac:(lia))).
Defined.

(** ** The report of [checkPlagiarism] *)

Lemma extraction_catch_throws (e : jsval) : exists e', extraction_catch e = Throw e'.
Proof.
  unfold extraction_catch. destruct (JS.error_message e) as [m|e']; simpl; [|eauto].
  destruct (_ || _); eauto.
Qed.

Lemma processing_catch_nil_throws (e : jsval) : exists e', processing_catch [] e = Throw e'.
Proof.
  unfold processing_catch; simpl.
  destruct (if JS.instanceof_Error e then _ else _) as [m|e']; simpl; eauto.
Qed.

Lemma checkPlagiarism_ret (env : Env) (input : jsval) (log : list nat) (rep : PlagiarismReport)
    (log' : list nat) :
  checkPlagiarism env input log = (Ret rep, log') ->
  exists fullText pr,
    extractTextFromInput env input = Ret fullText /\
    fst (processChunksConcurrently env (firstn MAX_CHUNKS_TO_PROCESS (chunkText fullText)) log)
      = Ret pr /\
    normalizedTextLength rep = String.length fullText /\
    suspiciousSegments rep = segments pr /\
    plagiarismPercentage rep = calculatePlagiarismPercentage (String.length fullText) (segments pr) /\
    riskLevel rep = determineRiskLevel (plagiarismPercentage rep) (aiGeneratedLikelihood rep) /\
    ((exists r, detectAIGeneratedText env fullText = Ret r /\
                aiGeneratedLikelihood rep = likelihood r /\ aiVerdict rep = verdict r) \/
     (exists e, detectAIGeneratedText env fullText = Throw e /\
                aiGeneratedLikelihood rep = (1 # 2)%Q /\ aiVerdict rep = uncertain)).
Proof.
  unfold checkPlagiarism, mbind, lift, mcatch, mret. intros H.
  destruct (extractTextFromInput env input) as [t|e] eqn:Ex.
  2:{ destruct (extraction_catch_throws e) as [e' He]. rewrite He in H. discriminate. }
  destruct (processChunksConcurrently env (firstn MAX_CHUNKS_TO_PROCESS (chunkText t)) log)
    as [[pr|e] log1] eqn:Ep.
  2:{ destruct (processing_catch_nil_throws e) as [e' He]. rewrite He in H. discriminate. }
  exists t, pr.
  destruct (detectAIGeneratedText env t) as [r|e] eqn:Ed.
  - injection H as <- _.
    cbn [normalizedTextLength suspiciousSegments plagiarismPercentage riskLevel
         aiGeneratedLikelihood aiVerdict].
    repeat split; try reflexivity; try (rewrite Ep; reflexivity).
    left; exists r; repeat split; reflexivity.
  - injection H as <- _.
    cbn [normalizedTextLength suspiciousSegments plagiarismPercentage riskLevel
         aiGeneratedLikelihood aiVerdict].
    repeat split; try reflexivity; try (rewrite Ep; reflexivity).
    right; exists e; repeat split; reflexivity.
Qed.

Lemma pipeline_catch_no_report (e : jsval) (r : PipelineResult) :
  pipeline_catch e = Ret r -> report r = None.
Proof.
  unfold pipeline_catch.
  destruct (JS.get_opt e "message") as [m|x]; cbn [obind]; [|discriminate].
  match goal with |- obind ?o _ = _ -> _ => destruct o as [raw|x] end;
    cbn [obind]; [|discriminate].
  intros H; injection H as <-; reflexivity.
Qed.

Lemma runPlagiarismPipeline_report (env : Env) (input : jsval) (log : list nat)
    (res : PipelineResult) (log' : list nat) (rep : PlagiarismReport) :
  runPlagiarismPipeline env input log = (Ret res, log') -> report res = Some rep ->
  checkPlagiarism env input log = (Ret rep, log').
Proof.
  unfold runPlagiarismPipeline, mcatch, pipeline_body, mbind, mret, lift.
  intros H Hr.
  destruct (negb (JS.truthy input) || negb (is_object input)).
  { injection H as <- _. discriminate. }
  destruct (JS.get_opt input "text") as [text|e].
  2:{ destruct (pipeline_catch e) eqn:Ec; [|discriminate H].
      injection H as <- _. rewrite (pipeline_catch_no_report _ _ Ec) in Hr; discriminate. }
  destruct (JS.get_opt input "fileBuffer") as [fb|e].
  2:{ destruct (pipeline_catch e) eqn:Ec; [|discriminate H].
      injection H as <- _. rewrite (pipeline_catch_no_report _ _ Ec) in Hr; discriminate. }
  destruct (_ && _).
  { injection H as <- _. discriminate. }
  destruct (checkPlagiarism env input log) as [[r|e] l1].
  - injection H as <- ->. simpl in Hr. injection Hr as ->. reflexivity.
  - destruct (pipeline_catch e) eqn:Ec; [|discriminate H].
    injection H as <- _. rewrite (pipeline_catch_no_report _ _ Ec) in Hr; discriminate.
Qed.

Lemma enforce_verdict_range (l : Q) (v : string) :
  (1 # 100 <= likelihood (enforce_verdict l v) <= 99 # 100)%Q.
Proof.
  unfold enforce_verdict; simpl. split.
  - apply Q.le_max_l.
  - apply Q.max_lub; [discriminate|apply Q.le_min_l].
Qed.

(** ** Authorship verdict *)

(** C2: when the classifier answers [{likelihood: l, verdict: v}] (key set,
    cache miss), the detector's likelihood is [l] clamped to [0.01, 0.99]
    ([Math.max(0.01, Math.min(0.99, l))]);
    the verdict is the threshold rule's on that likelihood only when [v] is
    not one of the three verdicts, and a valid [v] is kept as it is, even
    when it contradicts the likelihood (see [C2_counterexample]); the report
    of a run on that text carries this likelihood and verdict. *)
Theorem detectAIGeneratedText_verdict (env : Env) (fullText : string) (l : Q) (v : string) :
  gemini_key env = true ->
  cache_get_ai env (Key.getAICacheKey (textToAnalyze fullText)) = None ->
  gemini_ai env (textToAnalyze fullText) = Ret (Some (l, v)) ->
  exists r, detectAIGeneratedText env fullText = Ret r /\
    likelihood r = Qmax (1 # 100) (Qmin (99 # 100) l) /\
    (1 # 100 <= likelihood r <= 99 # 100)%Q /\
    (forall x, verdict_of_string v = Some x -> verdict r = x) /\
    (verdict_of_string v = None -> verdict r = threshold_verdict (likelihood r)) /\
    (forall input log rep log',
       extractTextFromInput env input = Ret fullText ->
       checkPlagiarism env input log = (Ret rep, log') ->
       aiGeneratedLikelihood rep = likelihood r /\ aiVerdict rep = verdict r).
Proof.
  intros Hg Hc Hai.
  assert (Hd : detectAIGeneratedText env fullText = Ret (enforce_verdict l v)).
  { unfold detectAIGeneratedText. rewrite Hg, Hc, Hai. reflexivity. }
  exists (enforce_verdict l v). split; [exact Hd|]. split; [reflexivity|].
  split; [apply enforce_verdict_range|].
  split; [|split].
  - intros x Hx. unfold enforce_verdict; simpl. rewrite Hx. reflexivity.
  - intros Hx. unfold enforce_verdict; simpl. rewrite Hx. reflexivity.
  - intros input log rep log' Hex Hrun.
    destruct (checkPlagiarism_ret _ _ _ _ _ Hrun)
      as (t & pr & Hex' & _ & _ & _ & _ & _ & [(r & Hr & H1 & H2)|(e & He & _)]).
    + rewrite Hex in Hex'. injection Hex' as <-. rewrite Hd in Hr. injection Hr as <-.
      split; assumption.
    + rewrite Hex in Hex'. injection Hex' as <-. rewrite Hd in He. discriminate.
Qed.

Lemma detectAIGeneratedText_verdict_witness :
  gemini_key (sample_env (9 # 10) "likely_human") = true /\
  cache_get_ai (sample_env (9 # 10) "likely_human")
    (Key.getAICacheKey (textToAnalyze sample_text)) = None /\
  gemini_ai (sample_env (9 # 10) "likely_human") (textToAnalyze sample_text)
    = Ret (Some (9 # 10, "likely_human")) /\
  exists r, detectAIGeneratedText (sample_env (9 # 10) "likely_human") sample_text = Ret r.
Proof.
  split; [reflexivity|]. split; [reflexivity|]. split; [reflexivity|].
  destruct (detectAIGeneratedText_verdict (sample_env (9 # 10) "likely_human") sample_text
              (9 # 10) "likely_human" eq_refl eq_refl eq_refl) as (r & Hr & _).
  exists r. exact Hr.
Defined.

(** C2 (counterexample): a classifier answering likelihood 0.9 with verdict
    "likely_human" gives a report with likelihood 0.9 and verdict
    likely_human, while the threshold rule gives likely_ai. *)
Lemma C2_counterexample :
  match fst (runPlagiarismPipeline (sample_env (9 # 10) "likely_human") (text_input sample_text) [])
  with
  | Ret res =>
      match report res with
      | Some rep =>
          aiGeneratedLikelihood rep = (9 # 10)%Q /\ aiVerdict rep = likely_human /\
          threshold_verdict (aiGeneratedLikelihood rep) = likely_ai
      | None => False
      end
  | Throw _ => False
  end.
Proof. vm_compute. repeat split. Qed.

(** ** Risk level *)

(** C6: the risk level of every report is [determineRiskLevel] of its
    percentage and likelihood, the weighted blend thresholded at 60 and 30,
    with no escalation for a likely_ai verdict (see [C6_counterexample]). *)
Theorem riskLevel_blend_only (env : Env) (input : jsval) (log : list nat)
    (res : PipelineResult) (log' : list nat) (rep : PlagiarismReport) :
  runPlagiarismPipeline env input log = (Ret res, log') -> report res = Some rep ->
  riskLevel rep = determineRiskLevel (plagiarismPercentage rep) (aiGeneratedLikelihood rep).
Proof.
  intros H Hr.
  pose proof (runPlagiarismPipeline_report _ _ _ _ _ _ H Hr) as Hc.
  destruct (checkPlagiarism_ret _ _ _ _ _ Hc) as (t & pr & _ & _ & _ & _ & _ & Hrisk & _).
  exact Hrisk.
Qed.

Lemma riskLevel_blend_only_witness :
  exists res log' rep,
    runPlagiarismPipeline (sample_env (71 # 100) "likely_ai") (text_input sample_text) []
      = (Ret res, log') /\ report res = Some rep /\
    riskLevel rep = determineRiskLevel (plagiarismPercentage rep) (aiGeneratedLikelihood rep).
Proof.
  destruct (runPlagiarismPipeline (sample_env (71 # 100) "likely_ai") (text_input sample_text) [])
    as [[res|e] log'] eqn:H; [|vm_compute in H; discriminate H].
  destruct (report res) as [rep|] eqn:Hr;
    [|vm_compute in H; injection H as <- _; discriminate Hr].
  exists res, log', rep. split; [reflexivity|]. split; [exact Hr|].
  exact (riskLevel_blend_only _ _ _ _ _ _ H Hr).
Defined.

(** C6 (counterexample): verdict likely_ai with likelihood 0.71 > 0.7 and no
    suspicious segment: the blend is 28.4 and the risk level stays low. *)
Lemma C6_counterexample :
  match fst (runPlagiarismPipeline (sample_env (71 # 100) "likely_ai") (text_input sample_text) [])
  with
  | Ret res =>
      match report res with
      | Some rep =>
          aiVerdict rep = likely_ai /\ (7 # 10 < aiGeneratedLikelihood rep)%Q /\
          riskLevel rep = low
      | None => False
      end
  | Throw _ => False
  end.
Proof. vm_compute. repeat split. Qed.

(** ** Normalized length *)

Lemma of_chars_length (l : list ascii) : String.length (Str.of_chars l) = length l.
Proof. induction l as [|c r IH]; simpl; auto. Qed.

Lemma drop_ws_length (l : list ascii) : length (Str.drop_ws l) <= length l.
Proof. induction l as [|c r IH]; simpl; [lia|]. destruct (Str.is_ws c); simpl; lia. Qed.

Lemma trim_length (s : string) : String.length (Str.trim s) <= String.length s.
Proof.
  unfold Str.trim, rev'. rewrite of_chars_length, <- !rev_alt, length_rev.
  rewrite <- chars_length.
  pose proof (drop_ws_length (Str.chars s)).
  pose proof (drop_ws_length (rev (Str.drop_ws (Str.chars s)))).
  rewrite length_rev in *. lia.
Qed.

Lemma normalizeText_ret (v : jsval) (t : string) :
  normalizeText v = Ret t ->
  exists s, v = JStr s /\ t = Normalize.normalize_core s /\ MIN_TEXT_LENGTH <= String.length t.
Proof.
  unfold normalizeText. destruct v as [| | |s| |]; try discriminate.
  destruct (String.eqb s ""); [discriminate|].
  destruct (Nat.ltb_spec (String.length (Normalize.normalize_core s)) MIN_TEXT_LENGTH)
    as [Hlt|Hge]; [discriminate|].
  intros H; injection H as <-. exists s; auto.
Qed.

Lemma extractTextFromInput_ret (env : Env) (input : jsval) (t : string) :
  extractTextFromInput env input = Ret t -> exists v, normalizeText v = Ret t.
Proof.
  unfold extractTextFromInput.
  destruct (JS.get input "text") as [text|e]; cbn [obind]; [|discriminate].
  destruct (JS.truthy text); [eauto|].
  destruct (JS.get input "fileBuffer") as [fb|e]; cbn [obind]; [|discriminate].
  destruct (JS.truthy fb); [|discriminate].
  destruct (JS.get input "fileName") as [fn|e]; cbn [obind]; [|discriminate].
  match goal with |- obind ?o _ = _ -> _ => destruct o as [ext|e] end; cbn [obind]; [|discriminate].
  match goal with |- obind ?o _ = _ -> _ => destruct o as [x|e] end; cbn [obind]; [eauto|discriminate].
Qed.

Lemma textToAnalyze_length (t : string) : String.length (textToAnalyze t) <= MAX_TEXT_LENGTH.
Proof.
  unfold textToAnalyze. eapply Nat.le_trans; [apply trim_length|].
  rewrite slice_0, of_chars_length. apply firstn_le_length.
Qed.

(** C9: the Normalizer has no length cap: it returns [normalize_core] of a
    string, whatever its length, or fails; a normalized text shorter than
    [MIN_TEXT_LENGTH] fails; the report's [normalizedTextLength] is the length
    of the extracted text, at least [MIN_TEXT_LENGTH] and possibly above
    [MAX_TEXT_LENGTH] (see [C9_counterexample]); only the classifier's input
    [textToAnalyze] is cut to [MAX_TEXT_LENGTH] characters. *)
Theorem normalizedTextLength_uncapped :
  (forall s t, normalizeText (JStr s) = Ret t ->
     t = Normalize.normalize_core s /\ MIN_TEXT_LENGTH <= String.length t) /\
  (forall s, String.length (Normalize.normalize_core s) < MIN_TEXT_LENGTH ->
     exists e, normalizeText (JStr s) = Throw e) /\
  (forall s, s <> EmptyString -> MIN_TEXT_LENGTH <= String.length (Normalize.normalize_core s) ->
     normalizeText (JStr s) = Ret (Normalize.normalize_core s)) /\
  (forall env input log rep log', checkPlagiarism env input log = (Ret rep, log') ->
     exists fullText, extractTextFromInput env input = Ret fullText /\
       normalizedTextLength rep = String.length fullText /\
       MIN_TEXT_LENGTH <= normalizedTextLength rep) /\
  (forall t, String.length (textToAnalyze t) <= MAX_TEXT_LENGTH).
Proof.
  refine (conj _ (conj _ (conj _ (conj _ _)))).
  - intros s t H. destruct (normalizeText_ret _ _ H) as (s' & Hs & Ht & Hl).
    injection Hs as <-. auto.
  - intros s Hl. unfold normalizeText.
    destruct (String.eqb s ""); [eauto|].
    destruct (Nat.ltb_spec (String.length (Normalize.normalize_core s)) MIN_TEXT_LENGTH);
      [eauto|lia].
  - intros s Hs Hl. unfold normalizeText.
    destruct (String.eqb_spec s ""); [contradiction|].
    destruct (Nat.ltb_spec (String.length (Normalize.normalize_core s)) MIN_TEXT_LENGTH);
      [lia|reflexivity].
  - intros env input log rep log' H.
    destruct (checkPlagiarism_ret _ _ _ _ _ H) as (t & pr & Hex & _ & Hlen & _).
    exists t. split; [exact Hex|]. split; [exact Hlen|].
    destruct (extractTextFromInput_ret _ _ _ Hex) as (v & Hv).
    destruct (normalizeText_ret _ _ Hv) as (s & _ & _ & Hl). lia.
  - apply textToAnalyze_length.
Qed.

(** C9 (counterexample): [normalizeText] returns the 250000 letters of the
    unit test's input unchanged, longer than [MAX_TEXT_LENGTH]; and a text
    input of 200001 letters gives a report whose [normalizedTextLength]
    exceeds [MAX_TEXT_LENGTH]. *)
Lemma C9_counterexample :
  match normalizeText (JStr test_long_A) with
  | Ret t => String.eqb t test_long_A && Nat.ltb MAX_TEXT_LENGTH (String.length t) = true
  | Throw _ => False
  end /\
  match fst (runPlagiarismPipeline (sample_env (1 # 2) "uncertain") (text_input long_text) [])
  with
  | Ret res =>
      match report res with
      | Some rep => Nat.ltb MAX_TEXT_LENGTH (normalizedTextLength rep) = true
      | None => False
      end
  | Throw _ => False
  end.
Proof. split; vm_compute; reflexivity. Qed.

(** ** A rejection in the first batch *)

Lemma runPlagiarismPipeline_text_input (env : Env) (s : string) (log : list nat) :
  0 < String.length (Str.trim s) ->
  runPlagiarismPipeline env (text_input s) log =
    match checkPlagiarism env (text_input s) log with
    | (Ret r, l) => (Ret (mkResult true (Some r) None None), l)
    | (Throw e, l) => (pipeline_catch e, l)
    end.
Proof.
  intros Ht.
  assert (H1 : JS.truthy (text_input s) = true) by reflexivity.
  assert (H2 : is_object (text_input s) = true) by reflexivity.
  assert (H3 : JS.get_opt (text_input s) "text" = Ret (JStr s)) by reflexivity.
  assert (H4 : JS.get_opt (text_input s) "fileBuffer" = Ret JUndef) by reflexivity.
  unfold runPlagiarismPipeline, mcatch, pipeline_body, mbind, mret, lift.
  rewrite H1, H2, H3, H4.
  destruct (Nat.ltb_spec 0 (String.length (Str.trim s))) as [_|]; [|lia].
  cbn [negb andb orb].
  destruct (checkPlagiarism env (text_input s) log) as [[r|e] l]; reflexivity.
Qed.

Lemma extractTextFromInput_text_input (env : Env) (s : string) :
  s <> EmptyString -> extractTextFromInput env (text_input s) = normalizeText (JStr s).
Proof.
  intros Hs. unfold extractTextFromInput, text_input.
  cbn [JS.get JS.assoc]. change (String.eqb "text" "text") with true. cbn [obind].
  unfold JS.truthy. destruct (String.eqb_spec s ""); [contradiction|reflexivity].
Qed.

Lemma trim_empty : Str.trim EmptyString = EmptyString.
Proof. reflexivity. Qed.

Lemma checkPlagiarism_reject (env : Env) (input : jsval) (log log1 : list nat) (t : string)
    (r e : jsval) :
  extractTextFromInput env input = Ret t ->
  processChunksConcurrently env (firstn MAX_CHUNKS_TO_PROCESS (chunkText t)) log = (Throw r, log1) ->
  processing_catch [] r = Throw e ->
  checkPlagiarism env input log = (Throw e, log1).
Proof.
  intros Hx Hp He.
  unfold checkPlagiarism, mbind, lift, mcatch, mret. rewrite Hx.
  rewrite Hp, He. reflexivity.
Qed.

Lemma processChunksConcurrently_first_reject (env : Env) (chunks : list TextChunk)
    (log : list nat) :
  rejections (map (chunk_task env) (firstn MAX_CONCURRENT_CHUNKS chunks)) <> [] ->
  processChunksConcurrently env chunks log =
    (Throw (first_rejection env (rejections (map (chunk_task env) (firstn MAX_CONCURRENT_CHUNKS chunks)))),
     log ++ map startIndex (firstn MAX_CONCURRENT_CHUNKS chunks)).
Proof.
  intros Hr.
  destruct chunks as [|c rest]; [simpl in Hr; contradiction|].
  unfold processChunksConcurrently, mbind.
  cbn [length process_loop].
  destruct (Nat.ltb_spec 0 (S (length rest))) as [_|]; [|lia].
  rewrite skipn_O. unfold tell.
  destruct (rejections (map (chunk_task env) (firstn MAX_CONCURRENT_CHUNKS (c :: rest)))) eqn:E;
    [contradiction|].
  reflexivity.
Qed.

Lemma rejections_in (env : Env) (l : list TextChunk) (r : jsval) :
  In r (rejections (map (chunk_task env) l)) -> exists c, In c l /\ chunk_task env c = Throw r.
Proof.
  induction l as [|c rest IH]; simpl; [contradiction|].
  destruct (chunk_task env c) as [x|e] eqn:E; simpl.
  - intros H; destruct (IH H) as (c' & ? & ?); eauto.
  - intros [<-|H]; [eauto|]. destruct (IH H) as (c' & ? & ?); eauto.
Qed.

Lemma rejections_nonempty (env : Env) (l : list TextChunk) (c : TextChunk) (r : jsval) :
  In c l -> chunk_task env c = Throw r -> rejections (map (chunk_task env) l) <> [].
Proof.
  induction l as [|c' rest IH]; simpl; [contradiction|].
  intros [<-|Hin] Hc.
  - rewrite Hc. discriminate.
  - destruct (chunk_task env c'); simpl; [apply IH; assumption|discriminate].
Qed.

Lemma pipeline_catch_upstream (m : string) :
  exists msg, pipeline_catch (JS.mk_error ("UPSTREAM_ERROR: " ++ m))
              = Ret (mkResult false None (Some upstream_error) (Some msg)).
Proof. eexists. reflexivity. Qed.

Lemma trim_nonempty (s : string) : 0 < String.length (Str.trim s) -> s <> EmptyString.
Proof. intros H ->. simpl in H. lia. Qed.

Lemma chunkText_nonempty (t : string) : 0 < String.length t -> chunkText t <> [].
Proof.
  intros H. unfold chunkText. rewrite chunk_loop_cons by exact H. discriminate.
Qed.

Lemma firstn_3_4 {A} (l : list A) :
  firstn MAX_CONCURRENT_CHUNKS (firstn MAX_CHUNKS_TO_PROCESS l) = firstn MAX_CONCURRENT_CHUNKS l.
Proof. rewrite firstn_firstn. reflexivity. Qed.

Lemma chunk_task_no_search_key (env : Env) (c : TextChunk) :
  search_key env = false -> chunk_task env c = Throw missing_search_key_error.
Proof.
  intros Hk. unfold chunk_task, chunk_body, searchWebForChunk. rewrite Hk.
  reflexivity.
Qed.

Lemma rejections_all (env : Env) (l : list TextChunk) (e : jsval) :
  (forall c, chunk_task env c = Throw e) -> rejections (map (chunk_task env) l) = repeat e (length l).
Proof.
  intros H. induction l as [|c r IH]; simpl; [reflexivity|]. rewrite H, IH. reflexivity.
Qed.

(** C7: without [SEARCH_API_KEY], a run on a text input that passes
    validation starts the first batch only and returns [ok = false] with
    [errorType = upstream_error], not [bad_request]: the [BAD_REQUEST]
    marker of the Source Finder's error is hidden behind the
    [UPSTREAM_ERROR] prefix that [checkPlagiarism] adds. *)
Theorem missing_search_key_upstream_error (env : Env) (s t : string) (log : list nat) :
  search_key env = false ->
  normalizeText (JStr s) = Ret t ->
  0 < String.length (Str.trim s) ->
  (forall rs, rs <> [] -> In (first_rejection env rs) rs) ->
  runPlagiarismPipeline env (text_input s) log =
    (Ret (mkResult false None (Some upstream_error) (Some "Missing SEARCH_API_KEY on server.")),
     log ++ map startIndex (firstn MAX_CONCURRENT_CHUNKS (chunkText t))).
Proof.
  intros Hk Hn Ht Hfirst.
  destruct (normalizeText_ret _ _ Hn) as (s' & _ & _ & Hlen).
  assert (Hc : chunkText t <> []) by (apply chunkText_nonempty; unfold MIN_TEXT_LENGTH in Hlen; lia).
  assert (Hall := rejections_all env (firstn MAX_CONCURRENT_CHUNKS (chunkText t))
                    missing_search_key_error (fun c => chunk_task_no_search_key env c Hk)).
  assert (Hne : rejections (map (chunk_task env) (firstn MAX_CONCURRENT_CHUNKS (chunkText t))) <> []).
  { rewrite Hall. destruct (chunkText t); [contradiction|discriminate]. }
  assert (Hr : first_rejection env (rejections (map (chunk_task env)
                 (firstn MAX_CONCURRENT_CHUNKS (chunkText t)))) = missing_search_key_error).
  { pose proof (Hfirst _ Hne) as Hin. rewrite Hall in Hin |- *.
    apply repeat_spec in Hin. exact Hin. }
  rewrite runPlagiarismPipeline_text_input by exact Ht.
  rewrite (checkPlagiarism_reject env (text_input s) log
             (log ++ map startIndex (firstn MAX_CONCURRENT_CHUNKS (chunkText t))) t
             missing_search_key_error
             (JS.mk_error "UPSTREAM_ERROR: BAD_REQUEST: Missing SEARCH_API_KEY on server.")).
  - reflexivity.
  - rewrite extractTextFromInput_text_input by (apply trim_nonempty; exact Ht). exact Hn.
  - rewrite processChunksConcurrently_first_reject; rewrite firstn_3_4; [|exact Hne].
    rewrite Hr. reflexivity.
  - reflexivity.
Qed.

Lemma missing_search_key_upstream_error_witness :
  search_key no_search_key_env = false /\
  normalizeText (JStr sample_text) = Ret sample_text /\
  0 < String.length (Str.trim sample_text) /\
  (forall rs, rs <> [] -> In (first_rejection no_search_key_env rs) rs) /\
  runPlagiarismPipeline no_search_key_env (text_input sample_text) [] =
    (Ret (mkResult false None (Some upstream_error) (Some "Missing SEARCH_API_KEY on server.")),
     [0]).
Proof.
  assert (Hk : search_key no_search_key_env = false) by reflexivity.
  assert (Hn : normalizeText (JStr sample_text) = Ret sample_text) by (vm_compute; reflexivity).
  assert (Ht : 0 < String.length (Str.trim sample_text)) by (vm_compute; lia).
  assert (Hf : forall rs, rs <> [] -> In (first_rejection no_search_key_env rs) rs).
  { intros [|x rs] H; [contradiction|left; reflexivity]. }
  split; [exact Hk|]. split; [exact Hn|]. split; [exact Ht|]. split; [exact Hf|].
  exact (missing_search_key_upstream_error no_search_key_env sample_text sample_text [] Hk Hn Ht Hf).
Defined.

Lemma chunk_task_reject_error (env : Env) (c : TextChunk) (r : jsval) :
  (forall r', chunk_body env c = Throw r' -> JS.instanceof_Error r' = true) ->
  chunk_task env c = Throw r ->
  exists m, processing_catch [] r = Throw (JS.mk_error ("UPSTREAM_ERROR: " ++ m)).
Proof.
  intros Hi H. unfold chunk_task in H.
  destruct (chunk_body env c) as [x|e] eqn:Eb; [discriminate|].
  specialize (Hi e eq_refl).
  destruct e as [| | | |p props|]; try discriminate Hi. destruct p; try discriminate Hi.
  unfold chunk_catch, JS.error_message in H. cbn [JS.instanceof_Error JS.get obind] in H.
  destruct (JS.assoc "message" props) as [mv|] eqn:Ea.
  - destruct mv as [| | |m| |]; cbn [obind] in H;
      try (injection H as <-; eexists; reflexivity).
    destruct (_ || _) in H; [|discriminate].
    injection H as <-. exists m.
    unfold processing_catch. cbn [length Nat.ltb JS.instanceof_Error JS.get obind].
    rewrite Ea. reflexivity.
  - simpl in H. discriminate.
Qed.

Lemma error_message_mk_error (x : string) : JS.error_message (JS.mk_error x) = Ret x.
Proof. reflexivity. Qed.

Lemma includes_upstream_prefix (m : string) :
  Str.includes ("UPSTREAM_ERROR: " ++ m) "UPSTREAM_ERROR" = true.
Proof. reflexivity. Qed.

Lemma search_fatal_task (env : Env) (c : TextChunk) (m : string) :
  search_key env = true ->
  cache_get_search env (Key.getChunkCacheKey (ctext c)) = None ->
  Str.trim (Str.slice (ctext c) 0 500) <> EmptyString ->
  serp env (Str.trim (Str.slice (ctext c) 0 500)) = Throw (JS.mk_error m) ->
  any_includes m SEARCH_CRITICAL = true ->
  exists r, chunk_task env c = Throw r.
Proof.
  intros Hk Hc Hq Hs Hcrit.
  assert (Hsearch : searchWebForChunk env (ctext c) = search_catch (JS.mk_error m)).
  { unfold searchWebForChunk. rewrite Hk, Hc. cbn [negb].
    destruct (String.eqb_spec (Str.trim (Str.slice (ctext c) 0 500)) ""); [contradiction|].
    rewrite Hs. reflexivity. }
  unfold chunk_task, chunk_body. rewrite Hsearch.
  unfold search_catch. rewrite error_message_mk_error. cbn [obind].
  rewrite Hcrit.
  destruct (negb (Str.includes m "UPSTREAM_ERROR") && negb (Str.includes m "BAD_REQUEST")) eqn:Eb.
  - cbn [obind]. unfold chunk_catch. cbn [JS.instanceof_Error JS.mk_error obind].
    fold (JS.mk_error ("UPSTREAM_ERROR: " ++ m)).
    rewrite error_message_mk_error. cbn [obind].
    rewrite includes_upstream_prefix, orb_true_r. eauto.
  - cbn [obind]. unfold chunk_catch. cbn [JS.instanceof_Error JS.mk_error obind].
    fold (JS.mk_error m).
    rewrite error_message_mk_error. cbn [obind].
    replace (Str.includes m "BAD_REQUEST" || Str.includes m "UPSTREAM_ERROR") with true; [eauto|].
    destruct (Str.includes m "UPSTREAM_ERROR"), (Str.includes m "BAD_REQUEST");
      simpl in Eb |- *; congruence.
Qed.

(** C5: (1) when the search request of a chunk of the first batch fails with
    an error whose message has a fatal marker ([SEARCH_CRITICAL]: 5xx,
    network, timeout, ...), and every error thrown by a chunk of that batch
    is an [Error], the run returns [ok = false] with [errorType =
    upstream_error] and starts no chunk after the first batch; (2) an
    [Error] reaching a chunk's [catch] without [BAD_REQUEST] or
    [UPSTREAM_ERROR] in its message is absorbed, counted as unscored unless
    its message contains [UPSTREAM_WARNING]; (3) a batch without rejection
    is followed by the next batch; (4) a failed search request without a
    fatal marker is absorbed by the Source Finder itself, which returns no
    result, so the chunk is scored and not counted as unscored (see
    [C5_counterexample]). *)
Theorem per_chunk_failure_policy :
  (forall env s t log c m,
     normalizeText (JStr s) = Ret t ->
     0 < String.length (Str.trim s) ->
     (forall rs, rs <> [] -> In (first_rejection env rs) rs) ->
     (forall c' r, In c' (firstn MAX_CONCURRENT_CHUNKS (chunkText t)) ->
        chunk_body env c' = Throw r -> JS.instanceof_Error r = true) ->
     In c (firstn MAX_CONCURRENT_CHUNKS (chunkText t)) ->
     search_key env = true ->
     cache_get_search env (Key.getChunkCacheKey (ctext c)) = None ->
     Str.trim (Str.slice (ctext c) 0 500) <> EmptyString ->
     serp env (Str.trim (Str.slice (ctext c) 0 500)) = Throw (JS.mk_error m) ->
     any_includes m SEARCH_CRITICAL = true ->
     exists msg, runPlagiarismPipeline env (text_input s) log =
       (Ret (mkResult false None (Some upstream_error) (Some msg)),
        log ++ map startIndex (firstn MAX_CONCURRENT_CHUNKS (chunkText t)))) /\
  (forall env c e m,
     chunk_body env c = Throw e -> JS.instanceof_Error e = true -> JS.error_message e = Ret m ->
     Str.includes m "BAD_REQUEST" = false -> Str.includes m "UPSTREAM_ERROR" = false ->
     chunk_task env c = Ret (TAbsorbed e (negb (Str.includes m "UPSTREAM_WARNING")))) /\
  (forall env chunks i acc f log,
     i < length chunks ->
     rejections (map (chunk_task env) (firstn MAX_CONCURRENT_CHUNKS (skipn i chunks))) = [] ->
     process_loop (S f) env chunks i acc log =
       process_loop f env chunks (i + MAX_CONCURRENT_CHUNKS)
         (fold_left add_task
            (fulfilled (map (chunk_task env) (firstn MAX_CONCURRENT_CHUNKS (skipn i chunks)))) acc)
         (log ++ map startIndex (firstn MAX_CONCURRENT_CHUNKS (skipn i chunks)))) /\
  (forall env text m,
     search_key env = true ->
     cache_get_search env (Key.getChunkCacheKey text) = None ->
     Str.trim (Str.slice text 0 500) <> EmptyString ->
     serp env (Str.trim (Str.slice text 0 500)) = Throw (JS.mk_error m) ->
     any_includes m SEARCH_CRITICAL = false ->
     searchWebForChunk env text = Ret []).
Proof.
  refine (conj _ (conj _ (conj _ _))).
  - intros env s t log c m Hn Ht Hfirst Herr Hin Hk Hc Hq Hs Hcrit.
    destruct (search_fatal_task env c m Hk Hc Hq Hs Hcrit) as (r0 & Hr0).
    assert (Hne := rejections_nonempty env _ c r0 Hin Hr0).
    set (rs := rejections (map (chunk_task env) (firstn MAX_CONCURRENT_CHUNKS (chunkText t)))) in *.
    destruct (rejections_in env _ _ (Hfirst rs Hne)) as (c' & Hin' & Hc').
    destruct (chunk_task_reject_error env c' _ (fun r' => Herr c' r' Hin') Hc') as (m' & Hp).
    destruct (pipeline_catch_upstream m') as (msg & Hmsg).
    exists msg.
    rewrite runPlagiarismPipeline_text_input by exact Ht.
    rewrite (checkPlagiarism_reject env (text_input s) log
               (log ++ map startIndex (firstn MAX_CONCURRENT_CHUNKS (chunkText t))) t
               (first_rejection env rs) (JS.mk_error ("UPSTREAM_ERROR: " ++ m'))).
    + rewrite Hmsg; reflexivity.
    + rewrite extractTextFromInput_text_input by (apply trim_nonempty; exact Ht). exact Hn.
    + rewrite processChunksConcurrently_first_reject; rewrite firstn_3_4; [reflexivity|exact Hne].
    + exact Hp.
  - intros env c e m Hb Hi Hm H1 H2.
    unfold chunk_task. rewrite Hb. unfold chunk_catch. rewrite Hi. cbn [obind].
    rewrite Hm. cbn [obind]. rewrite H1, H2. reflexivity.
  - intros env chunks i acc f log Hi Hr.
    cbn [process_loop]. destruct (Nat.ltb_spec i (length chunks)); [|lia].
    unfold mbind, tell. rewrite Hr. reflexivity.
  - intros env text m Hk Hc Hq Hs Hcrit.
    unfold searchWebForChunk. rewrite Hk, Hc. cbn [negb].
    destruct (String.eqb_spec (Str.trim (Str.slice text 0 500)) ""); [contradiction|].
    rewrite Hs. unfold search_catch. rewrite error_message_mk_error. cbn [obind].
    rewrite Hcrit. reflexivity.
Qed.

Lemma per_chunk_failure_policy_witness :
  exists msg,
    runPlagiarismPipeline (failing_search_env "SerpAPI request failed: 503")
      (text_input sample_text) [] =
      (Ret (mkResult false None (Some upstream_error) (Some msg)), [0]).
Proof.
  set (env := failing_search_env "SerpAPI request failed: 503").
  assert (Hn : normalizeText (JStr sample_text) = Ret sample_text) by (vm_compute; reflexivity).
  assert (Ht : 0 < String.length (Str.trim sample_text)) by (vm_compute; lia).
  assert (Hf : forall rs, rs <> [] -> In (first_rejection env rs) rs).
  { intros [|x rs] H; [contradiction|left; reflexivity]. }
  assert (Herr : forall c' r, In c' (firstn MAX_CONCURRENT_CHUNKS (chunkText sample_text)) ->
                   chunk_body env c' = Throw r -> JS.instanceof_Error r = true).
  { intros c' r Hin. vm_compute in Hin. destruct Hin as [<-|[]].
    intros H. vm_compute in H. injection H as <-. reflexivity. }
  assert (Hin : In first_sample_chunk (firstn MAX_CONCURRENT_CHUNKS (chunkText sample_text)))
    by (vm_compute; left; reflexivity).
  assert (Hq : Str.trim (Str.slice (ctext first_sample_chunk) 0 500) <> EmptyString)
    by (vm_compute; discriminate).
  exact (proj1 per_chunk_failure_policy env sample_text sample_text [] first_sample_chunk
           "SerpAPI request failed: 503" Hn Ht Hf Herr Hin eq_refl eq_refl Hq eq_refl
           ltac:(vm_compute; reflexivity)).
Defined.

(** C5 (counterexample): every search request fails with a parse error (no
    fatal marker); the Source Finder returns no result for each chunk, no
    chunk is counted as unscored, no error is recorded, and the run reports
    [analysisStatus = success]. *)
Lemma C5_counterexample :
  fst (processChunksConcurrently (failing_search_env "Unexpected token < in JSON at position 0")
         (chunkText sample_text) []) = Ret (mkPR [] 0 []) /\
  match fst (runPlagiarismPipeline (failing_search_env "Unexpected token < in JSON at position 0")
               (text_input sample_text) [])
  with
  | Ret res =>
      match report res with
      | Some rep => analysisStatus rep = success
      | None => False
      end
  | Throw _ => False
  end.
Proof. split; vm_compute; reflexivity. Qed.

(** ** Exceptions escaping the orchestrator *)

(** C1 (code bug): the PDF decoder throws [thrown_outer]. The extraction
    [catch] of [checkPlagiarism] calls [String(error)], whose [toString]
    throws [thrown_inner]; the [catch] of [runPlagiarismPipeline] reads
    [err?.message] (absent) and calls [err?.toString()] on an object with no
    [toString], which throws a [TypeError] out of the [catch] block: the run
    rejects instead of returning a [PipelineResult]. *)
Theorem runPlagiarismPipeline_escapes :
  runPlagiarismPipeline throwing_pdf_env pdf_input [] =
    (Throw (JS.mk_error "err?.toString is not a function"), []).
Proof. vm_compute. reflexivity. Qed.

(** ** Retry executor *)

Lemma retry_loop_delays {A} (fn : nat -> outcome A) random maxRetries init max :
  forall fuel attempt lastError r calls delays k d,
    retry_loop fn random maxRetries init max fuel attempt lastError = (r, calls, delays) ->
    nth_error delays k = Some d ->
    d = (backoff_delay init max (Nat.add attempt k)
         + random (Nat.add attempt k) * (3 # 10) * backoff_delay init max (Nat.add attempt k))%Q.
Proof.
  induction fuel as [|f IH]; intros attempt lastError r calls delays k d Hr Hk.
  - cbn [retry_loop] in Hr. injection Hr as _ _ <-. destruct k; discriminate Hk.
  - cbn [retry_loop] in Hr.
    destruct (fn attempt) as [v|err].
    + injection Hr as _ _ <-. destruct k; discriminate Hk.
    + destruct (Nat.eqb attempt maxRetries).
      { injection Hr as _ _ <-. destruct k; discriminate Hk. }
      destruct (JS.error_message err) as [m|e].
      2: { injection Hr as _ _ <-. destruct k; discriminate Hk. }
      destruct (negb (any_includes m RETRYABLE)).
      { injection Hr as _ _ <-. destruct k; discriminate Hk. }
      destruct (retry_loop fn random maxRetries init max f (S attempt) err)
        as [[r' calls'] delays'] eqn:Erec.
      injection Hr as _ _ <-.
      destruct k as [|k].
      * injection Hk as <-. rewrite Nat.add_0_r. reflexivity.
      * cbn [nth_error] in Hk.
        rewrite (IH (S attempt) err r' calls' delays' k d Erec Hk).
        rewrite Nat.add_succ_comm. reflexivity.
Qed.

Lemma backoff_delay_nonneg init max k :
  (0 <= init)%Q -> (0 <= max)%Q -> (0 <= backoff_delay init max k)%Q.
Proof.
  intros Hi Hm. unfold backoff_delay.
  apply Q.min_glb; [|exact Hm].
  apply Qmult_le_0_compat; [exact Hi|].
  unfold Qle; cbn. rewrite Z.mul_1_r. apply Z.pow_nonneg. lia.
Qed.

Lemma jitter_bounds (rnd delay : Q) :
  (0 <= rnd)%Q -> (rnd < 1)%Q -> (0 <= delay)%Q ->
  (0 <= rnd * (3 # 10) * delay)%Q /\ (rnd * (3 # 10) * delay <= (3 # 10) * delay)%Q.
Proof.
  intros H0 H1 Hd. split.
  - apply Qmult_le_0_compat; [|exact Hd].
    apply Qmult_le_0_compat; [exact H0|]. unfold Qle; cbn; lia.
  - setoid_replace (rnd * (3 # 10) * delay)%Q with (rnd * ((3 # 10) * delay))%Q by ring.
    setoid_replace ((3 # 10) * delay)%Q with (1 * ((3 # 10) * delay))%Q at 2 by ring.
    apply Qmult_le_compat_r; [apply Qlt_le_weak; exact H1|].
    apply Qmult_le_0_compat; [unfold Qle; cbn; lia|exact Hd].
Qed.

(** C8: with [maxRetries >= 2] (at least three attempts), a function that
    throws two retryable errors and then returns [v] yields [v] after exactly
    three calls, having waited two backoff delays; a function whose first call
    throws a non-retryable error is called once and its error propagates
    with no wait; and every delay waited after attempt [k] is
    [min(initialDelay * 2^k, maxDelay)] plus a jitter between 0 and 30% of it. *)
Theorem retryWithBackoff_spec :
  (forall A (fn : nat -> outcome A) random maxRetries init max e0 e1 m0 m1 v,
     2 <= maxRetries ->
     fn 0 = Throw e0 -> fn 1 = Throw e1 -> fn 2 = Ret v ->
     JS.error_message e0 = Ret m0 -> any_includes m0 RETRYABLE = true ->
     JS.error_message e1 = Ret m1 -> any_includes m1 RETRYABLE = true ->
     retryWithBackoff fn random maxRetries init max =
       (Ret v, 3,
        [(backoff_delay init max 0%nat + random 0%nat * (3 # 10) * backoff_delay init max 0%nat)%Q;
         (backoff_delay init max 1%nat + random 1%nat * (3 # 10) * backoff_delay init max 1%nat)%Q])) /\
  (forall A (fn : nat -> outcome A) random maxRetries init max e m,
     fn 0 = Throw e -> JS.error_message e = Ret m -> any_includes m RETRYABLE = false ->
     retryWithBackoff fn random maxRetries init max = (Throw e, 1, [])) /\
  (forall A (fn : nat -> outcome A) random maxRetries init max r calls delays,
     (0 <= init)%Q -> (0 <= max)%Q -> (forall k, 0 <= random k /\ random k < 1)%Q ->
     retryWithBackoff fn random maxRetries init max = (r, calls, delays) ->
     forall k d, nth_error delays k = Some d ->
       d = (backoff_delay init max k + random k * (3 # 10) * backoff_delay init max k)%Q /\
       (0 <= random k * (3 # 10) * backoff_delay init max k)%Q /\
       (random k * (3 # 10) * backoff_delay init max k <= (3 # 10) * backoff_delay init max k)%Q).
Proof.
  refine (conj _ (conj _ _)).
  - intros A fn random maxRetries init max e0 e1 m0 m1 v Hm H0 H1 H2 Hm0 Hr0 Hm1 Hr1.
    unfold retryWithBackoff.
    destruct maxRetries as [|[|maxRetries]]; [lia|lia|].
    cbn [retry_loop]. rewrite H0. cbn [Nat.eqb]. rewrite Hm0, Hr0. cbn [negb].
    cbn [retry_loop]. rewrite H1. cbn [Nat.eqb]. rewrite Hm1, Hr1. cbn [negb].
    cbn [retry_loop]. rewrite H2. reflexivity.
  - intros A fn random maxRetries init max e m H0 Hm Hr.
    unfold retryWithBackoff. cbn [retry_loop]. rewrite H0.
    destruct (Nat.eqb 0 maxRetries); [reflexivity|].
    rewrite Hm, Hr. reflexivity.
  - intros A fn random maxRetries init max r calls delays Hi Hmax Hrnd Hr k d Hk.
    unfold retryWithBackoff in Hr.
    rewrite (retry_loop_delays fn random maxRetries init max _ _ _ _ _ _ k d Hr Hk).
    cbn [Nat.add]. split; [reflexivity|].
    destruct (Hrnd k) as [Hlo Hhi].
    exact (jitter_bounds _ _ Hlo Hhi (backoff_delay_nonneg init max k Hi Hmax)).
Qed.

Lemma retryWithBackoff_spec_witness :
  retryWithBackoff flaky_fn (fun _ => 1 # 2) 2 500 10000 =
    (Ret 7, 3,
     [(backoff_delay 500 10000 0%nat + (1 # 2) * (3 # 10) * backoff_delay 500 10000 0%nat)%Q;
      (backoff_delay 500 10000 1%nat + (1 # 2) * (3 # 10) * backoff_delay 500 10000 1%nat)%Q]) /\
  retryWithBackoff (fun _ => @Throw nat (JS.mk_error "BAD_REQUEST: bad key"))
    (fun _ => 1 # 2) 2 500 10000 = (Throw (JS.mk_error "BAD_REQUEST: bad key"), 1, []) /\
  (0 <= (1 # 2) * (3 # 10) * backoff_delay 500 10000 1%nat)%Q /\
  ((1 # 2) * (3 # 10) * backoff_delay 500 10000 1%nat <= (3 # 10) * backoff_delay 500 10000 1%nat)%Q.
Proof.
  assert (H1 := proj1 retryWithBackoff_spec nat flaky_fn (fun _ => 1 # 2) 2 500%Q 10000%Q
                 (JS.mk_error "SerpAPI request failed: 503") (JS.mk_error "SerpAPI request failed: 503")
                 "SerpAPI request failed: 503" "SerpAPI request failed: 503" 7
                 ltac:(lia) eq_refl eq_refl eq_refl eq_refl eq_refl eq_refl eq_refl).
  split; [exact H1|split].
  - exact (proj1 (proj2 retryWithBackoff_spec) nat (fun _ => Throw (JS.mk_error "BAD_REQUEST: bad key"))
             (fun _ => 1 # 2) 2 500%Q 10000%Q _ "BAD_REQUEST: bad key" eq_refl eq_refl eq_refl).
  - assert (Hr : forall k : nat, (0 <= (fun _ => 1 # 2) k /\ (fun _ => 1 # 2) k < 1)%Q).
    { intros k. split; [unfold Qle|unfold Qlt]; cbn; lia. }
    exact (proj2 ((proj2 (proj2 retryWithBackoff_spec) nat flaky_fn (fun _ => 1 # 2) 2 500%Q 10000%Q _ _ _
              ltac:(unfold Qle; cbn; lia) ltac:(unfold Qle; cbn; lia) Hr H1 1 _ eq_refl))).
Defined.

(** ** Similarity scorer *)

Lemma Qle_bool_false (x y : Q) : Qle_bool x y = false -> (y < x)%Q.
Proof.
  intros H. apply Qnot_le_lt. intros Hle. apply Qle_bool_iff in Hle. congruence.
Qed.

Lemma score_loop_in (c : string) (sources : list WebSearchResult) :
  forall senv acc ms, score_loop c senv sources acc = Ret ms ->
  forall m, In m ms -> In m acc \/
    ((3 # 10) < sm_similarityScore m /\
     exists s, In s sources /\ sm_url m = wsr_url s /\ sm_title m = wsr_title s /\
               sm_snippet m = wsr_snippet s)%Q.
Proof.
  induction sources as [|s rest IH]; intros senv acc ms H m Hm; cbn [score_loop] in H.
  - injection H as <-. left; exact Hm.
  - destruct (scoreChunkAgainstSource_st senv c s) as [[q|e] senv'].
    + destruct (Qle_bool q (3 # 10)) eqn:Eq.
      * destruct (IH _ _ _ H m Hm) as [Ha|(Hq & s' & Hin & Hs)]; [left; exact Ha|].
        right; split; [exact Hq|exists s'; split; [right; exact Hin|exact Hs]].
      * destruct (IH _ _ _ H m Hm) as [Ha|(Hq & s' & Hin & Hs)].
        -- apply in_app_or in Ha. destruct Ha as [Ha|[<-|[]]]; [left; exact Ha|].
           right; split; [apply Qle_bool_false; exact Eq|].
           exists s; split; [left; reflexivity|cbn; auto].
        -- right; split; [exact Hq|exists s'; split; [right; exact Hin|exact Hs]].
    + destruct (JS.error_message e) as [msg|e']; cbn [obind] in H; [|discriminate].
      destruct (any_includes msg SCORE_CRITICAL).
      * destruct (if JS.instanceof_Error e then _ else _); discriminate.
      * destruct (IH _ _ _ H m Hm) as [Ha|(Hq & s' & Hin & Hs)]; [left; exact Ha|].
        right; split; [exact Hq|exists s'; split; [right; exact Hin|exact Hs]].
Qed.

Lemma score_loop_length (c : string) (sources : list WebSearchResult) :
  forall senv acc ms, score_loop c senv sources acc = Ret ms ->
  length ms <= length acc + length sources.
Proof.
  induction sources as [|s rest IH]; intros senv acc ms H; cbn [score_loop] in H.
  - injection H as <-. simpl; lia.
  - cbn [length]. destruct (scoreChunkAgainstSource_st senv c s) as [[q|e] senv'].
    + apply IH in H. destruct (Qle_bool q (3 # 10)); [lia|].
      rewrite length_app in H. simpl in H; lia.
    + destruct (JS.error_message e) as [msg|e']; cbn [obind] in H; [|discriminate].
      destruct (any_includes msg SCORE_CRITICAL).
      * destruct (if JS.instanceof_Error e then _ else _); discriminate.
      * apply IH in H. lia.
Qed.

Lemma insert_match_perm (m : SourceMatch) (l : list SourceMatch) :
  Permutation (insert_match m l) (m :: l).
Proof.
  induction l as [|x r IH]; simpl; [reflexivity|].
  destruct (Qle_bool _ _); [reflexivity|].
  rewrite IH. apply perm_swap.
Qed.

Lemma sort_matches_perm (l : list SourceMatch) : Permutation (sort_matches l) l.
Proof.
  induction l as [|x r IH]; simpl; [reflexivity|].
  rewrite insert_match_perm, IH. reflexivity.
Qed.

(** The order of [sort_matches]: by decreasing similarity. *)
Definition by_similarity_desc (a b : SourceMatch) : Prop :=
  (sm_similarityScore b <= sm_similarityScore a)%Q.

Lemma insert_match_hdrel (x m : SourceMatch) (l : list SourceMatch) :
  HdRel by_similarity_desc x l -> by_similarity_desc x m ->
  HdRel by_similarity_desc x (insert_match m l).
Proof.
  destruct l as [|y r]; simpl; intros H1 H2; [constructor; exact H2|].
  destruct (Qle_bool _ _); constructor; [exact H2|]. inversion H1; assumption.
Qed.

Lemma insert_match_sorted (m : SourceMatch) (l : list SourceMatch) :
  Sorted by_similarity_desc l -> Sorted by_similarity_desc (insert_match m l).
Proof.
  induction l as [|x r IH]; simpl; intros H.
  - repeat constructor.
  - destruct (Qle_bool (sm_similarityScore x) (sm_similarityScore m)) eqn:E.
    + constructor; [exact H|]. constructor. apply Qle_bool_iff; exact E.
    + inversion H as [|? ? Hr Hhd]; subst.
      constructor; [apply IH; exact Hr|].
      apply insert_match_hdrel; [exact Hhd|].
      apply Qlt_le_weak, Qle_bool_false; exact E.
Qed.

Lemma sort_matches_sorted (l : list SourceMatch) : Sorted by_similarity_desc (sort_matches l).
Proof.
  induction l as [|x r IH]; simpl; [constructor|]. apply insert_match_sorted; exact IH.
Qed.

Lemma sorted_desc_head (h : SourceMatch) (t : list SourceMatch) :
  Sorted by_similarity_desc (h :: t) ->
  forall m, In m (h :: t) -> (sm_similarityScore m <= sm_similarityScore h)%Q.
Proof.
  intros Hs. apply Sorted_StronglySorted in Hs.
  2:{ intros a b c H1 H2. unfold by_similarity_desc in *. eapply Qle_trans; eassumption. }
  inversion Hs as [|? ? _ Hall]; subst.
  intros m [<-|Hm]; [apply Qle_refl|].
  rewrite Forall_forall in Hall. apply Hall; exact Hm.
Qed.

Lemma scoreChunkAgainstSources_ret (env : Env) (senv : ScorerEnv) (chunk : TextChunk)
    (sources : list WebSearchResult) (r : ScoreResult) :
  scoreChunkAgainstSources env senv chunk sources = Ret r ->
  exists ms,
    (r = mkScore false 0 [] /\ ms = []) \/
    (score_loop (ctext chunk) senv (firstn TOP_N_RESULTS sources) [] = Ret ms /\
     r = mkScore (negb (Qle_bool (match sort_matches ms with m :: _ => sm_similarityScore m | [] => 0%Q end) (1 # 2)))
                 (match sort_matches ms with m :: _ => sm_similarityScore m | [] => 0%Q end)
                 (sort_matches ms)).
Proof.
  unfold scoreChunkAgainstSources. intros H.
  destruct (Nat.eqb (length sources) 0).
  { injection H as <-. exists []. left; auto. }
  destruct (negb (gemini_key env)).
  { injection H as <-. exists []. left; auto. }
  destruct (score_loop _ _ _) as [ms|e] eqn:E; cbn [obind] in H; [|discriminate].
  injection H as <-. exists ms. right; auto.
Qed.

(** The matches of [scoreChunkAgainstSources]: at most [TOP_N_RESULTS] of
    them, each with a similarity above 0.3 and taken from one of the first
    five search results (its url, title and snippet). *)
Theorem scoreChunkAgainstSources_matches (env : Env) (senv : ScorerEnv) (chunk : TextChunk)
    (sources : list WebSearchResult) (r : ScoreResult) :
  scoreChunkAgainstSources env senv chunk sources = Ret r ->
  length (matches r) <= TOP_N_RESULTS /\
  forall m, In m (matches r) ->
    ((3 # 10) < sm_similarityScore m)%Q /\
    exists s, In s (firstn TOP_N_RESULTS sources) /\ sm_url m = wsr_url s /\
              sm_title m = wsr_title s /\ sm_snippet m = wsr_snippet s.
Proof.
  intros H. destruct (scoreChunkAgainstSources_ret _ _ _ _ _ H) as (ms & [[-> ->]|[Hl ->]]).
  - split; [cbn; unfold TOP_N_RESULTS; lia|intros m []].
  - cbn [matches]. split.
    + rewrite (Permutation_length (sort_matches_perm ms)).
      apply score_loop_length in Hl. rewrite length_firstn in Hl. cbn [length Nat.add] in Hl.
      pose proof (Nat.le_min_l TOP_N_RESULTS (length sources)). lia.
    + intros m Hm. apply (Permutation_in _ (sort_matches_perm ms)) in Hm.
      destruct (score_loop_in _ _ _ _ _ Hl m Hm) as [[]|Hx]. exact Hx.
Qed.

(** The score of [scoreChunkAgainstSources]: the matches come sorted by
    decreasing similarity, [similarityScore] is the first (highest) one, or 0
    when there is none, and the chunk is [suspicious] exactly when it is above
    0.5; so a suspicious result always has a match. *)
Theorem scoreChunkAgainstSources_max (env : Env) (senv : ScorerEnv) (chunk : TextChunk)
    (sources : list WebSearchResult) (r : ScoreResult) :
  scoreChunkAgainstSources env senv chunk sources = Ret r ->
  Sorted by_similarity_desc (matches r) /\
  (forall m, In m (matches r) -> (sm_similarityScore m <= similarityScore r)%Q) /\
  similarityScore r = match matches r with m :: _ => sm_similarityScore m | [] => 0%Q end /\
  (suspicious r = true <-> (1 # 2 < similarityScore r)%Q) /\
  (suspicious r = true -> matches r <> []).
Proof.
  intros H.
  assert (Hsusp : forall q, negb (Qle_bool q (1 # 2)) = true <-> (1 # 2 < q)%Q).
  { intros q. destruct (Qle_bool q (1 # 2)) eqn:E; cbn; split; intros Hx.
    - discriminate.
    - apply Qle_bool_iff in E. exfalso. apply (Qlt_not_le _ _ Hx E).
    - apply Qle_bool_false; exact E.
    - reflexivity. }
  destruct (scoreChunkAgainstSources_ret _ _ _ _ _ H) as (ms & [[-> ->]|[Hl ->]]).
  - cbn. split; [constructor|]. split; [intros m []|]. split; [reflexivity|].
    split; [split; [discriminate|intros Hx; inversion Hx]|discriminate].
  - cbn [matches similarityScore suspicious].
    pose proof (sort_matches_sorted ms) as Hs.
    split; [exact Hs|]. split; [|split; [reflexivity|split; [apply Hsusp|]]].
    + destruct (sort_matches ms) as [|h t]; [intros m []|].
      apply sorted_desc_head; exact Hs.
    + destruct (sort_matches ms) as [|h t]; [|discriminate].
      intros Hx. apply Hsusp in Hx. exfalso. apply (Qlt_not_le _ _ Hx). discriminate.
Qed.


(** A scored source changes the cache at its own key only. *)
Lemma score_st_frame (senv : ScorerEnv) (c : string) (p : WebSearchResult) :
  agree_except (sim_key c p) senv (snd (scoreChunkAgainstSource_st senv c p)).
Proof.
  unfold scoreChunkAgainstSource_st, sim_key. cbv zeta.
  destruct (sim_cache_get senv _); [split; reflexivity|].
  destruct (sim_llm senv _ _) as [r|e]; cbn [snd]; [|split; reflexivity].
  split; [reflexivity|]. intros k Hk. unfold set_similarity. cbn [sim_cache_get].
  destruct (String.eqb_spec k (getSimilarityCacheKey c (sourceText p))); [contradiction|reflexivity].
Qed.



Lemma score_st_llm_ret (senv : ScorerEnv) (c : string) (p : WebSearchResult) (r : option Q) :
  sim_llm senv (Str.slice c 0 1000) (Str.slice (sourceText p) 0 500) = Ret r ->
  exists q, fst (scoreChunkAgainstSource_st senv c p) = Ret q.
Proof.
  intros H. unfold scoreChunkAgainstSource_st. cbv zeta.
  destruct (sim_cache_get senv _); [eexists; reflexivity|]. rewrite H. eexists; reflexivity.
Qed.

Lemma score_loop_critical (c : string) (s : WebSearchResult) (post : list WebSearchResult)
    (e : jsval) (msg : string) (pre : list WebSearchResult) :
  JS.instanceof_Error e = true -> JS.error_message e = Ret msg ->
  any_includes msg SCORE_CRITICAL = true ->
  forall senv acc,
  sim_cache_get senv (sim_key c s) = None ->
  sim_llm senv (Str.slice c 0 1000) (Str.slice (sourceText s) 0 500) = Throw e ->
  Forall (fun p => (exists r, sim_llm senv (Str.slice c 0 1000) (Str.slice (sourceText p) 0 500) = Ret r)
                   /\ sim_key c p <> sim_key c s) pre ->
  score_loop c senv (pre ++ s :: post) acc = Throw e.
Proof.
  intros Hinst Hmsg Hcrit. induction pre as [|p pre IH]; intros senv acc Hcache Hllm Hpre.
  - cbn [app score_loop]. unfold scoreChunkAgainstSource_st. cbv zeta.
    unfold sim_key in Hcache. rewrite Hcache, Hllm. unfold score_catch.
    rewrite Hmsg. cbn [obind]. rewrite Hcrit. cbn [obind]. rewrite Hmsg. cbn [obind].
    rewrite Hcrit, Hinst. reflexivity.
  - inversion Hpre as [|? ? [[r Hr] Hne] Hrest]; subst.
    cbn [app score_loop].
    pose proof (score_st_frame senv c p) as [Hl Hc].
    destruct (score_st_llm_ret _ _ _ _ Hr) as [q Hq].
    destruct (scoreChunkAgainstSource_st senv c p) as [o senv'] eqn:E.
    cbn [fst snd] in Hq, Hl, Hc. subst o.
    apply IH.
    + rewrite <- Hc; [exact Hcache|intros Hx; apply Hne; symmetry; exact Hx].
    + rewrite <- Hl. exact Hllm.
    + rewrite <- Hl. exact Hrest.
Qed.


Lemma firstn_app_cons_nonempty {A} (n : nat) (l pre post : list A) (x : A) :
  firstn n l = pre ++ x :: post -> Nat.eqb (length l) 0 = false.
Proof.
  destruct l; [rewrite firstn_nil; destruct pre; discriminate|reflexivity].
Qed.

(** A critical failure on one of the first five sources: when the model
    answers for every earlier source, no earlier source has the same cache
    key, the source is not in the cache, and the model fails on it with an
    [Error] whose message names a server or network fault,
    [scoreChunkAgainstSources] throws that very error; the matches found so
    far are lost. *)
Theorem scoreChunkAgainstSources_critical (env : Env) (senv : ScorerEnv) (chunk : TextChunk)
    (sources pre post : list WebSearchResult) (s : WebSearchResult) (e : jsval) (msg : string) :
  gemini_key env = true ->
  firstn TOP_N_RESULTS sources = pre ++ s :: post ->
  Forall (fun p =>
    (exists r, sim_llm senv (Str.slice (ctext chunk) 0 1000) (Str.slice (sourceText p) 0 500) = Ret r) /\
    sim_key (ctext chunk) p <> sim_key (ctext chunk) s) pre ->
  sim_cache_get senv (sim_key (ctext chunk) s) = None ->
  sim_llm senv (Str.slice (ctext chunk) 0 1000) (Str.slice (sourceText s) 0 500) = Throw e ->
  JS.instanceof_Error e = true -> JS.error_message e = Ret msg ->
  any_includes msg SCORE_CRITICAL = true ->
  scoreChunkAgainstSources env senv chunk sources = Throw e.
Proof.
  intros Hkey Htop Hpre Hcache Hllm Hinst Hmsg Hcrit.
  unfold scoreChunkAgainstSources. rewrite (firstn_app_cons_nonempty _ _ _ _ _ Htop), Hkey.
  cbn [negb]. rewrite Htop.
  rewrite (score_loop_critical _ _ _ _ _ pre Hinst Hmsg Hcrit senv [] Hcache Hllm Hpre).
  reflexivity.
Qed.



(** [scoreChunkAgainstSource] yields a similarity in [0, 1] when the cache
    only holds such values; when the source is not cached and the model's
    reply cannot be read, or the model fails with an error whose message
    names no server or network fault, the similarity is 0, while a failure
    whose message names one is rethrown unchanged. *)
Theorem scoreChunkAgainstSource_outcomes (senv : ScorerEnv) (chunkText : string)
    (source : WebSearchResult) :
  (forall k v, sim_cache_get senv k = Some v -> (0 <= v <= 1)%Q) ->
  (forall q, scoreChunkAgainstSource senv chunkText source = Ret q -> (0 <= q <= 1)%Q) /\
  (sim_cache_get senv (getSimilarityCacheKey chunkText (sourceText source)) = None ->
   forall res, sim_llm senv (Str.slice chunkText 0 1000) (Str.slice (sourceText source) 0 500) = res ->
   (res = Ret None -> scoreChunkAgainstSource senv chunkText source = Ret 0%Q) /\
   (forall e msg, res = Throw e -> JS.error_message e = Ret msg ->
      scoreChunkAgainstSource senv chunkText source =
      if any_includes msg SCORE_CRITICAL then Throw e else Ret 0%Q)).
Proof.
  intros Hcache. split.
  - intros q. unfold scoreChunkAgainstSource, scoreChunkAgainstSource_st. cbv zeta.
    destruct (sim_cache_get senv _) as [v|] eqn:Ec; cbn [fst].
    + intros H; injection H as <-. exact (Hcache _ _ Ec).
    + destruct (sim_llm senv _ _) as [[x|]|e]; cbn [fst].
      * intros H; injection H as <-. unfold clamp_0_1. split.
        -- apply Q.le_max_l.
        -- apply Q.max_lub; [discriminate|apply Q.le_min_l].
      * intros H; injection H as <-. split; discriminate.
      * unfold score_catch. destruct (JS.error_message e); cbn [obind]; [|discriminate].
        destruct (any_includes _ _); [discriminate|].
        intros H; injection H as <-. split; discriminate.
  - intros Hc res Hllm. unfold scoreChunkAgainstSource, scoreChunkAgainstSource_st. cbv zeta.
    rewrite Hc, Hllm. split.
    + intros ->. reflexivity.
    + intros e msg -> Hmsg. unfold score_catch. rewrite Hmsg. reflexivity.
Qed.

Lemma scoreChunkAgainstSources_matches_witness :
  exists r, scoreChunkAgainstSources (sample_env 0 "human") sample_scorer first_sample_chunk
              [source_alpha; source_beta] = Ret r /\
  length (matches r) <= TOP_N_RESULTS /\
  forall m, In m (matches r) ->
    ((3 # 10) < sm_similarityScore m)%Q /\
    exists s, In s (firstn TOP_N_RESULTS [source_alpha; source_beta]) /\ sm_url m = wsr_url s /\
              sm_title m = wsr_title s /\ sm_snippet m = wsr_snippet s.
Proof.
  eexists. assert (H : scoreChunkAgainstSources (sample_env 0 "human") sample_scorer first_sample_chunk
              [source_alpha; source_beta] = Ret (mkScore true (9 # 10) [mkMatch "https://a.example" (Some "A") (Some "alpha") (9 # 10)]))
    by (vm_compute; reflexivity).
  split; [exact H|]. exact (scoreChunkAgainstSources_matches _ _ _ _ _ H).
Defined.

Lemma scoreChunkAgainstSources_max_witness :
  exists r, scoreChunkAgainstSources (sample_env 0 "human") sample_scorer first_sample_chunk
              [source_beta; source_alpha] = Ret r /\
  Sorted by_similarity_desc (matches r) /\
  (forall m, In m (matches r) -> (sm_similarityScore m <= similarityScore r)%Q) /\
  similarityScore r = match matches r with m :: _ => sm_similarityScore m | [] => 0%Q end /\
  (suspicious r = true <-> (1 # 2 < similarityScore r)%Q) /\
  (suspicious r = true -> matches r <> []).
Proof.
  eexists. assert (H : scoreChunkAgainstSources (sample_env 0 "human") sample_scorer first_sample_chunk
              [source_beta; source_alpha] = Ret (mkScore true (9 # 10) [mkMatch "https://a.example" (Some "A") (Some "alpha") (9 # 10)]))
    by (vm_compute; reflexivity).
  split; [exact H|]. exact (scoreChunkAgainstSources_max _ _ _ _ _ H).
Defined.

Lemma scoreChunkAgainstSources_critical_witness :
  scoreChunkAgainstSources (sample_env 0 "human") failing_scorer first_sample_chunk
    [source_alpha; source_beta] = Throw (JS.mk_error "Gemini request failed: 502").
Proof.
  apply (scoreChunkAgainstSources_critical _ _ _ _ [source_alpha] [] source_beta _
           "Gemini request failed: 502").
  - reflexivity.
  - reflexivity.
  - constructor; [|constructor]. split.
    + exists (Some (9 # 10)). vm_compute; reflexivity.
    + apply String.eqb_neq. vm_compute; reflexivity.
  - reflexivity.
  - vm_compute; reflexivity.
  - reflexivity.
  - reflexivity.
  - vm_compute; reflexivity.
Defined.



Lemma scoreChunkAgainstSource_outcomes_witness :
  (forall q, scoreChunkAgainstSource failing_scorer sample_text source_beta = Ret q -> (0 <= q <= 1)%Q) /\
  scoreChunkAgainstSource failing_scorer sample_text source_beta =
  Throw (JS.mk_error "Gemini request failed: 502").
Proof.
  assert (Hc : forall k v, sim_cache_get failing_scorer k = Some v -> (0 <= v <= 1)%Q)
    by (intros k v H; discriminate H).
  destruct (scoreChunkAgainstSource_outcomes failing_scorer sample_text source_beta Hc) as [H1 H2].
  split; [exact H1|].
  exact (proj2 (H2 eq_refl _ eq_refl) (JS.mk_error "Gemini request failed: 502")
           "Gemini request failed: 502" eq_refl eq_refl).
Defined.

(** ** Cache keys *)

Lemma chars_app (a b : string) : Str.chars (a ++ b) = Str.chars a ++ Str.chars b.
Proof. induction a as [|c a IH]; cbn; [reflexivity|]. unfold Str.chars in *. cbn. rewrite IH. reflexivity. Qed.

Lemma toInt32_plus_mult (x k : Z) : Key.toInt32 (x + k * 2 ^ 32) = Key.toInt32 x.
Proof. unfold Key.toInt32. rewrite Z_mod_plus_full. reflexivity. Qed.

Lemma toInt32_shift (x : Z) : exists k, Key.toInt32 x = (x + k * 2 ^ 32)%Z.
Proof.
  unfold Key.toInt32. pose proof (Z.div_mod x (2 ^ 32) ltac:(lia)) as Hd.
  destruct (2 ^ 31 <=? x mod 2 ^ 32)%Z.
  - exists (- (x / 2 ^ 32) - 1)%Z. lia.
  - exists (- (x / 2 ^ 32))%Z. lia.
Qed.

(** One step of the key hash is [(31 * hash + c)] taken as a 32-bit integer. *)
Lemma hash_step_linear (h : Z) (c : ascii) :
  Key.hash_step h c = Key.toInt32 (31 * h + Z.of_nat (nat_of_ascii c))%Z.
Proof.
  unfold Key.hash_step. rewrite Z.land_diag.
  destruct (toInt32_shift h) as [k1 E1]. rewrite E1.
  destruct (toInt32_shift ((h + k1 * 2 ^ 32) * 2 ^ 5)%Z) as [k2 E2]. rewrite E2.
  set (y := ((h + k1 * 2 ^ 32) * 2 ^ 5 + k2 * 2 ^ 32 - h + Z.of_nat (nat_of_ascii c))%Z).
  destruct (toInt32_shift y) as [k3 E3]. rewrite E3, toInt32_plus_mult.
  replace y with ((31 * h + Z.of_nat (nat_of_ascii c)) + (32 * k1 + k2) * 2 ^ 32)%Z
    by (unfold y; lia).
  apply toInt32_plus_mult.
Qed.

Lemma hash_Aa_BB (h : Z) :
  Key.hash_step (Key.hash_step h "A"%char) "a"%char = Key.hash_step (Key.hash_step h "B"%char) "B"%char.
Proof.
  rewrite !hash_step_linear.
  change (Z.of_nat (nat_of_ascii "A"%char)) with 65%Z.
  change (Z.of_nat (nat_of_ascii "a"%char)) with 97%Z.
  change (Z.of_nat (nat_of_ascii "B"%char)) with 66%Z.
  destruct (toInt32_shift (31 * h + 65)%Z) as [k1 E1].
  destruct (toInt32_shift (31 * h + 66)%Z) as [k2 E2].
  rewrite E1, E2.
  replace (31 * (31 * h + 65 + k1 * 2 ^ 32) + 97)%Z with ((961 * h + 2112) + (31 * k1) * 2 ^ 32)%Z by lia.
  replace (31 * (31 * h + 66 + k2 * 2 ^ 32) + 66)%Z with ((961 * h + 2112) + (31 * k2) * 2 ^ 32)%Z by lia.
  rewrite !toInt32_plus_mult. reflexivity.
Qed.

Lemma hash_Aa_BB_infix (p q : string) : Key.hash (p ++ "Aa" ++ q) = Key.hash (p ++ "BB" ++ q).
Proof.
  unfold Key.hash. rewrite !chars_app, !fold_left_app. cbn [Str.chars list_ascii_of_string fold_left].
  rewrite hash_Aa_BB. reflexivity.
Qed.

(** The cache keys of texts differing only by ["Aa"] against ["BB"] at the
    same place are equal: the search-result cache and the similarity cache
    serve the entry of one such text for the other. *)
Theorem cache_keys_collide (p q t : string) :
  Key.getChunkCacheKey (p ++ "Aa" ++ q) = Key.getChunkCacheKey (p ++ "BB" ++ q) /\
  getSimilarityCacheKey (p ++ "Aa" ++ q) t = getSimilarityCacheKey (p ++ "BB" ++ q) t /\
  getSimilarityCacheKey t (p ++ "Aa" ++ q) = getSimilarityCacheKey t (p ++ "BB" ++ q).
Proof.
  unfold Key.getChunkCacheKey, getSimilarityCacheKey. rewrite !hash_Aa_BB_infix. auto.
Qed.

(** ** Retry executor *)

Lemma retry_loop_calls {A} (fn : nat -> outcome A) random maxRetries init max :
  forall fuel attempt lastError r calls delays,
    fuel + attempt = S maxRetries -> 0 < fuel ->
    retry_loop fn random maxRetries init max fuel attempt lastError = (r, calls, delays) ->
    calls = S attempt + length delays /\ calls <= S maxRetries /\
    (forall v, r = Ret v -> fn (pred calls) = Ret v /\
       forall k, attempt <= k -> k < pred calls -> exists e, fn k = Throw e).
Proof.
  induction fuel as [|f IH]; intros attempt lastError r calls delays Hf Hpos Hr; [lia|].
  cbn [retry_loop] in Hr. destruct (fn attempt) as [v|err] eqn:Efn.
  { injection Hr as <- <- <-. cbn [length]. split; [lia|split; [lia|]].
    intros v' Hv; injection Hv as <-. split; [exact Efn|intros k H1 H2; cbn in H2; lia]. }
  assert (Hstop : forall r' d', (r', S attempt, d') = (r, calls, delays) -> d' = [] ->
            (forall v, r' <> Ret v) ->
            calls = S attempt + length delays /\ calls <= S maxRetries /\
            (forall v, r = Ret v -> fn (pred calls) = Ret v /\
               forall k, attempt <= k -> k < pred calls -> exists e, fn k = Throw e)).
  { intros r' d' He Hd Hnr. injection He as <- <- <-. subst d'. cbn [length].
    split; [lia|split; [lia|]]. intros v Hv. exfalso. exact (Hnr v Hv). }
  destruct (Nat.eqb attempt maxRetries) eqn:Eq.
  { apply (Hstop _ _ Hr eq_refl). discriminate. }
  apply Nat.eqb_neq in Eq.
  destruct (JS.error_message err) as [m|e].
  2:{ apply (Hstop _ _ Hr eq_refl). discriminate. }
  destruct (negb (any_includes m RETRYABLE)).
  { apply (Hstop _ _ Hr eq_refl). discriminate. }
  destruct (retry_loop fn random maxRetries init max f (S attempt) err)
    as [[r' calls'] delays'] eqn:Erec.
  injection Hr as <- <- <-.
  destruct (IH (S attempt) err r' calls' delays' ltac:(lia) ltac:(lia) Erec) as (Hc & Hle & Hv).
  cbn [length]. split; [lia|split; [lia|]].
  intros v Hrv. destruct (Hv v Hrv) as [Hfn Hk]. split; [exact Hfn|].
  intros k H1 H2. destruct (Nat.eq_dec k attempt) as [->|Hne]; [exists err; exact Efn|].
  apply Hk; lia.
Qed.

(** [retryWithBackoff] calls [fn] at most [maxRetries + 1] times and waits
    once between two calls; when it returns a value, that value is the one
    of the last call, and every earlier call threw. *)
Theorem retryWithBackoff_calls {A} (fn : nat -> outcome A) random maxRetries init max
    r calls delays :
  retryWithBackoff fn random maxRetries init max = (r, calls, delays) ->
  calls = S (length delays) /\ calls <= S maxRetries /\
  (forall v, r = Ret v -> fn (pred calls) = Ret v /\
     forall k, k < pred calls -> exists e, fn k = Throw e).
Proof.
  unfold retryWithBackoff. intros Hr.
  destruct (retry_loop_calls fn random maxRetries init max (S maxRetries) 0 JUndef r calls delays
              ltac:(lia) ltac:(lia) Hr)
    as (Hc & Hle & Hv).
  split; [lia|split; [exact Hle|]].
  intros v Hrv. destruct (Hv v Hrv) as [Hfn Hk]. split; [exact Hfn|].
  intros k Hlt. apply Hk; lia.
Qed.

Lemma retry_loop_exhausted {A} (fn : nat -> outcome A) random maxRetries init max (e : jsval) :
  (forall k, k < maxRetries -> exists err m, fn k = Throw err /\ JS.error_message err = Ret m /\
                                             any_includes m RETRYABLE = true) ->
  fn maxRetries = Throw e ->
  forall fuel attempt lastError, fuel + attempt = S maxRetries -> attempt <= maxRetries ->
  exists delays,
    retry_loop fn random maxRetries init max fuel attempt lastError = (Throw e, S maxRetries, delays) /\
    length delays = maxRetries - attempt.
Proof.
  intros Hk He. induction fuel as [|f IH]; intros attempt lastError Hf Ha; [lia|].
  cbn [retry_loop]. destruct (Nat.eqb attempt maxRetries) eqn:Eq.
  - apply Nat.eqb_eq in Eq. subst attempt. rewrite He. exists []. split; [|cbn; lia].
    reflexivity.
  - apply Nat.eqb_neq in Eq.
    destruct (Hk attempt ltac:(lia)) as (err & m & Hfn & Hm & Hrt).
    rewrite Hfn, Hm, Hrt. cbn [negb].
    destruct (IH (S attempt) err ltac:(lia) ltac:(lia)) as (delays & Hrec & Hlen).
    rewrite Hrec. eexists. split; [reflexivity|]. cbn [length]. lia.
Qed.

(** When every call but the last one throws an error that [isRetryable]
    accepts, [retryWithBackoff] makes all [maxRetries + 1] calls, waits
    [maxRetries] times, and throws the error of the last call. *)
Theorem retryWithBackoff_exhausted {A} (fn : nat -> outcome A) random maxRetries init max
    (e : jsval) :
  (forall k, k < maxRetries -> exists err m, fn k = Throw err /\ JS.error_message err = Ret m /\
                                             any_includes m RETRYABLE = true) ->
  fn maxRetries = Throw e ->
  exists delays,
    retryWithBackoff fn random maxRetries init max = (Throw e, S maxRetries, delays) /\
    length delays = maxRetries.
Proof.
  intros Hk He. unfold retryWithBackoff.
  destruct (retry_loop_exhausted fn random maxRetries init max e Hk He (S maxRetries) 0 JUndef
              ltac:(lia) ltac:(lia)) as (delays & H & Hlen).
  exists delays. split; [exact H|lia].
Qed.

(** With a non-negative [initialDelay] and [maxDelay] and [Math.random()] in
    [0, 1), every wait of [retryWithBackoff] lies between 0 and
    [1.3 * maxDelay]. *)
Theorem retryWithBackoff_delay_bound {A} (fn : nat -> outcome A) random maxRetries init max
    r calls delays :
  (0 <= init)%Q -> (0 <= max)%Q -> (forall k, 0 <= random k /\ random k < 1)%Q ->
  retryWithBackoff fn random maxRetries init max = (r, calls, delays) ->
  forall d, In d delays -> (0 <= d /\ d <= (13 # 10) * max)%Q.
Proof.
  intros Hi Hm Hrnd Hr d Hd.
  destruct (In_nth_error _ _ Hd) as [k Hk].
  unfold retryWithBackoff in Hr.
  rewrite (retry_loop_delays fn random maxRetries init max _ _ _ _ _ _ k d Hr Hk).
  cbn [Nat.add]. destruct (Hrnd k) as [Hlo Hhi].
  pose proof (backoff_delay_nonneg init max k Hi Hm) as Hb.
  destruct (jitter_bounds _ _ Hlo Hhi Hb) as [Hj0 Hj1].
  assert (Hbm : (backoff_delay init max k <= max)%Q) by apply Q.le_min_r.
  split.
  - setoid_replace 0%Q with (0 + 0)%Q by ring. apply Qplus_le_compat; assumption.
  - apply Qle_trans with (backoff_delay init max k + (3 # 10) * backoff_delay init max k)%Q.
    + apply Qplus_le_compat; [apply Qle_refl|exact Hj1].
    + setoid_replace (backoff_delay init max k + (3 # 10) * backoff_delay init max k)%Q
        with ((13 # 10) * backoff_delay init max k)%Q by ring.
      apply Qmult_le_l; [reflexivity|exact Hbm].
Qed.

Lemma retryWithBackoff_calls_witness :
  retryWithBackoff flaky_fn (fun _ => 1 # 2) 3 500 10000 =
    (Ret 7, 3, [(500 + (1 # 2) * (3 # 10) * 500)%Q; (1000 + (1 # 2) * (3 # 10) * 1000)%Q]) /\
  3 = S 2 /\ 3 <= S 3 /\
  (forall v, Ret 7 = Ret v -> flaky_fn 2 = Ret v /\ forall k, k < 2 -> exists e, flaky_fn k = Throw e).
Proof.
  assert (H : retryWithBackoff flaky_fn (fun _ => 1 # 2) 3 500 10000 =
    (Ret 7, 3, [(500 + (1 # 2) * (3 # 10) * 500)%Q; (1000 + (1 # 2) * (3 # 10) * 1000)%Q]))
    by (vm_compute; reflexivity).
  split; [exact H|]. exact (retryWithBackoff_calls _ _ _ _ _ _ _ _ H).
Defined.

Lemma retryWithBackoff_exhausted_witness :
  exists delays,
    retryWithBackoff (fun _ => @Throw nat (JS.mk_error "Request timeout")) (fun _ => 0%Q) 3 500 10000
      = (Throw (JS.mk_error "Request timeout"), 4, delays) /\ length delays = 3.
Proof.
  apply retryWithBackoff_exhausted.
  - intros k _. exists (JS.mk_error "Request timeout"), "Request timeout". vm_compute. auto.
  - reflexivity.
Defined.

Lemma retryWithBackoff_delay_bound_witness :
  Forall (fun d => 0 <= d /\ d <= (13 # 10) * 10000)%Q
    [(500 + (1 # 2) * (3 # 10) * 500)%Q; (1000 + (1 # 2) * (3 # 10) * 1000)%Q].
Proof.
  apply Forall_forall.
  assert (H : retryWithBackoff flaky_fn (fun _ => 1 # 2) 3 500 10000 =
    (Ret 7, 3, [(500 + (1 # 2) * (3 # 10) * 500)%Q; (1000 + (1 # 2) * (3 # 10) * 1000)%Q]))
    by (vm_compute; reflexivity).
  assert (Hr : forall k : nat, (0 <= (fun _ => 1 # 2) k /\ (fun _ => 1 # 2) k < 1)%Q).
  { intros k. split; [unfold Qle|unfold Qlt]; cbn; lia. }
  assert (H0 : (0 <= 500)%Q) by (unfold Qle; cbn; lia).
  assert (H1 : (0 <= 10000)%Q) by (unfold Qle; cbn; lia).
  exact (retryWithBackoff_delay_bound _ _ _ _ _ _ _ _ H0 H1 Hr H).
Defined.

(** ** Normalizer *)

Lemma crlf_to_lf_length (n : nat) :
  forall l, length l <= n -> length (Normalize.crlf_to_lf l) <= length l.
Proof.
  induction n as [|n IH]; intros l Hl.
  - destruct l; [cbn; lia|cbn in Hl; lia].
  - destruct l as [|c [|d r]]; [cbn; lia|cbn; lia|].
    change (Normalize.crlf_to_lf (c :: d :: r)) with
      (if Ascii.eqb c Normalize.cr && Ascii.eqb d Normalize.nl
       then Normalize.nl :: Normalize.crlf_to_lf r else c :: Normalize.crlf_to_lf (d :: r)).
    destruct (Ascii.eqb c Normalize.cr && Ascii.eqb d Normalize.nl).
    + cbn [length] in *. pose proof (IH r ltac:(lia)). lia.
    + cbn [length] in *. pose proof (IH (d :: r) ltac:(cbn [length]; lia)) as H.
      cbn [length] in H. lia.
Qed.

Lemma collapse_nl_length (l : list ascii) :
  forall k, length (Normalize.collapse_nl l k) <= length l + k.
Proof.
  induction l as [|c r IH]; intros k; cbn [Normalize.collapse_nl].
  - rewrite repeat_length. destruct (Nat.leb 3 k) eqn:E; [apply Nat.leb_le in E|]; cbn; lia.
  - destruct (Ascii.eqb c Normalize.nl).
    + pose proof (IH (S k)). cbn [length]. lia.
    + rewrite length_app, repeat_length. cbn [length]. pose proof (IH 0).
      destruct (Nat.leb 3 k) eqn:E; [apply Nat.leb_le in E|]; lia.
Qed.

Lemma collapse_blank_length (l : list ascii) :
  forall b, length (Normalize.collapse_blank l b) <= length l + (if b then 1 else 0).
Proof.
  induction l as [|c r IH]; intros b; cbn [Normalize.collapse_blank].
  - destruct b; cbn; lia.
  - destruct (Ascii.eqb c Normalize.sp || Ascii.eqb c Normalize.tab).
    + pose proof (IH true) as H. cbn [length] in *. destruct b; cbv iota in *; cbn [length] in *; lia.
    + rewrite length_app. pose proof (IH false) as H. cbn [length] in *. destruct b; cbv iota in *; cbn [length] in *; lia.
Qed.

Lemma filter_length_le' {A} (f : A -> bool) (l : list A) : length (filter f l) <= length l.
Proof. induction l as [|x r IH]; cbn; [lia|]. destruct (f x); cbn; lia. Qed.

Lemma normalize_core_length (s : string) :
  String.length (Normalize.normalize_core s) <= String.length s.
Proof.
  unfold Normalize.normalize_core. rewrite of_chars_length.
  eapply Nat.le_trans; [apply filter_length_le'|]. rewrite chars_length.
  eapply Nat.le_trans; [apply trim_length|]. rewrite of_chars_length.
  eapply Nat.le_trans; [apply collapse_blank_length|].
  pose proof (collapse_nl_length (Normalize.cr_to_lf (Normalize.crlf_to_lf (Str.chars s))) 0).
  unfold Normalize.cr_to_lf in *. rewrite length_map in H.
  pose proof (crlf_to_lf_length _ (Str.chars s) (le_n _)).
  rewrite chars_length in H0. cbv iota. lia.
Qed.

Lemma collapse_nl_in (l : list ascii) :
  forall k c, In c (Normalize.collapse_nl l k) -> c = Normalize.nl \/ In c l.
Proof.
  induction l as [|d r IH]; intros k c Hc; cbn [Normalize.collapse_nl] in Hc.
  - left. apply repeat_spec in Hc. exact Hc.
  - destruct (Ascii.eqb d Normalize.nl).
    + destruct (IH _ _ Hc) as [H|H]; [left; exact H|right; right; exact H].
    + apply in_app_or in Hc. destruct Hc as [Hc|[<-|Hc]].
      * left. apply repeat_spec in Hc. exact Hc.
      * right; left; reflexivity.
      * destruct (IH _ _ Hc) as [H|H]; [left; exact H|right; right; exact H].
Qed.

Lemma collapse_blank_in (l : list ascii) :
  forall b c, In c (Normalize.collapse_blank l b) ->
  c = Normalize.sp \/ (In c l /\ c <> Normalize.tab).
Proof.
  induction l as [|d r IH]; intros b c Hc; cbn [Normalize.collapse_blank] in Hc.
  - destruct b; [destruct Hc as [<-|[]]; left; reflexivity|destruct Hc].
  - destruct (Ascii.eqb d Normalize.sp || Ascii.eqb d Normalize.tab) eqn:Eb.
    + destruct (IH _ _ Hc) as [H|[H1 H2]]; [left; exact H|right; split; [right; exact H1|exact H2]].
    + apply in_app_or in Hc. destruct Hc as [Hc|[<-|Hc]].
      * destruct b; [destruct Hc as [<-|[]]; left; reflexivity|destruct Hc].
      * right. split; [left; reflexivity|]. intros ->.
        rewrite orb_comm in Eb. discriminate Eb.
      * destruct (IH _ _ Hc) as [H|[H1 H2]]; [left; exact H|right; split; [right; exact H1|exact H2]].
Qed.

Lemma drop_ws_in (l : list ascii) (c : ascii) : In c (Str.drop_ws l) -> In c l.
Proof.
  induction l as [|d r IH]; cbn; [auto|]. destruct (Str.is_ws d); [intros H; right; auto|auto].
Qed.

Lemma trim_in (s : string) (c : ascii) : In c (Str.chars (Str.trim s)) -> In c (Str.chars s).
Proof.
  unfold Str.trim, rev'. rewrite chars_of_chars, <- !rev_alt.
  intros H. apply in_rev, drop_ws_in, in_rev, drop_ws_in in H. exact H.
Qed.

(** The text [normalizeText] returns keeps between 50 characters and the
    length of its input, and holds no carriage return, no tab and none of
    the control characters it strips. *)
Theorem normalizeText_output (s t : string) :
  normalizeText (JStr s) = Ret t ->
  MIN_TEXT_LENGTH <= String.length t <= String.length s /\
  forall c, In c (Str.chars t) ->
    c <> Normalize.cr /\ c <> Normalize.tab /\ Normalize.is_control c = false.
Proof.
  intros H. destruct (normalizeText_ret _ _ H) as (s' & Hs & -> & Hmin).
  injection Hs as <-. split; [split; [exact Hmin|apply normalize_core_length]|].
  intros c Hc. unfold Normalize.normalize_core in Hc. rewrite chars_of_chars in Hc.
  apply filter_In in Hc. destruct Hc as [Hc Hctl].
  apply trim_in in Hc. rewrite chars_of_chars in Hc.
  destruct (collapse_blank_in _ _ _ Hc) as [->|[Hc1 Htab]].
  - split; [discriminate|split; [discriminate|reflexivity]].
  - split; [|split; [exact Htab|destruct (Normalize.is_control c); [discriminate|reflexivity]]].
    destruct (collapse_nl_in _ _ _ Hc1) as [->|Hc2]; [discriminate|].
    unfold Normalize.cr_to_lf in Hc2. apply in_map_iff in Hc2.
    destruct Hc2 as (x & Hx & _). intros ->.
    destruct (Ascii.eqb x Normalize.cr) eqn:E; [discriminate Hx|].
    subst x. rewrite Ascii.eqb_refl in E. discriminate E.
Qed.

Lemma normalizeText_output_witness :
  normalizeText (JStr messy_text) = Ret messy_text_normalized /\
  MIN_TEXT_LENGTH <= String.length messy_text_normalized <= String.length messy_text /\
  forall c, In c (Str.chars messy_text_normalized) ->
    c <> Normalize.cr /\ c <> Normalize.tab /\ Normalize.is_control c = false.
Proof.
  assert (H : normalizeText (JStr messy_text) = Ret messy_text_normalized) by (vm_compute; reflexivity).
  split; [exact H|]. exact (normalizeText_output _ _ H).
Defined.

(** ** Pipeline entry point *)

Lemma pipeline_catch_shape (e : jsval) (r : PipelineResult) :
  pipeline_catch e = Ret r ->
  ok r = false /\ report r = None /\
  exists ty m, errorType r = Some ty /\ message r = Some m /\ m <> EmptyString.
Proof.
  unfold pipeline_catch.
  destruct (JS.get_opt e "message") as [m|x]; cbn [obind]; [|discriminate].
  match goal with |- obind ?o _ = _ -> _ => destruct o as [raw|x] end;
    cbn [obind]; [|discriminate].
  intros H; injection H as <-. cbn [ok report errorType message].
  split; [reflexivity|split; [reflexivity|]].
  eexists; eexists; split; [reflexivity|split; [reflexivity|]].
  match goal with |- (if String.eqb ?x "" then _ else _) <> _ => destruct (String.eqb_spec x "") end;
    [discriminate|assumption].
Qed.

(** Whatever the input, a result [runPlagiarismPipeline] returns is either a
    success carrying a report and no error, or a failure with no report, an
    error type and a non-empty message. *)
Theorem runPlagiarismPipeline_result_shape (env : Env) (input : jsval) (log : list nat)
    (r : PipelineResult) (log' : list nat) :
  runPlagiarismPipeline env input log = (Ret r, log') ->
  (ok r = true /\ report r <> None /\ errorType r = None /\ message r = None) \/
  (ok r = false /\ report r = None /\
   exists ty m, errorType r = Some ty /\ message r = Some m /\ m <> EmptyString).
Proof.
  unfold runPlagiarismPipeline, mcatch, pipeline_body, mbind, mret, lift.
  assert (Hbad : forall m, m <> EmptyString ->
     (ok (bad_request_result m) = true /\ report (bad_request_result m) <> None /\
      errorType (bad_request_result m) = None /\ message (bad_request_result m) = None) \/
     (ok (bad_request_result m) = false /\ report (bad_request_result m) = None /\
      exists ty m', errorType (bad_request_result m) = Some ty /\
                    message (bad_request_result m) = Some m' /\ m' <> EmptyString)).
  { intros m Hm. right. split; [reflexivity|split; [reflexivity|]].
    exists bad_request, m. auto. }
  intros H.
  destruct (negb (JS.truthy input) || negb (is_object input)).
  { injection H as <- _. apply Hbad. discriminate. }
  destruct (JS.get_opt input "text") as [text|e].
  2:{ destruct (pipeline_catch e) eqn:Ec; [|discriminate H].
      injection H as <- _. right. exact (pipeline_catch_shape _ _ Ec). }
  destruct (JS.get_opt input "fileBuffer") as [fb|e].
  2:{ destruct (pipeline_catch e) eqn:Ec; [|discriminate H].
      injection H as <- _. right. exact (pipeline_catch_shape _ _ Ec). }
  destruct (_ && _).
  { injection H as <- _. apply Hbad. discriminate. }
  destruct (checkPlagiarism env input log) as [[rep|e] l1].
  - injection H as <- _. left. cbn. split; [reflexivity|split; [discriminate|auto]].
  - destruct (pipeline_catch e) eqn:Ec; [|discriminate H].
    injection H as <- _. right. exact (pipeline_catch_shape _ _ Ec).
Qed.

(** The input checks of [runPlagiarismPipeline]: a value that is not an
    object (or is [null]) is refused with the invalid-input message, and an
    object with neither a non-blank text nor a truthy [fileBuffer] with the
    message asking for one; in both cases nothing is analysed. *)
Theorem runPlagiarismPipeline_invalid_input (env : Env) (input : jsval) (log : list nat) :
  ((JS.truthy input = false \/ is_object input = false) ->
   runPlagiarismPipeline env input log =
   (Ret (bad_request_result "Invalid input: expected an object with 'text' or 'fileBuffer'."), log)) /\
  (forall p props text fb, input = JObj p props ->
   JS.get input "text" = Ret text -> JS.get input "fileBuffer" = Ret fb ->
   (forall s, text = JStr s -> Str.trim s = EmptyString) -> JS.truthy fb = false ->
   runPlagiarismPipeline env input log =
   (Ret (bad_request_result "Please provide either text or an uploaded document."), log)).
Proof.
  split.
  - intros Hin. unfold runPlagiarismPipeline, mcatch, pipeline_body, mret.
    destruct Hin as [-> | ->]; [reflexivity|rewrite orb_true_r; reflexivity].
  - intros p props text fb -> Ht Hf Hs Hfb.
    unfold runPlagiarismPipeline, mcatch, pipeline_body, mbind, mret, lift.
    cbn [JS.truthy is_object negb orb JS.get_opt]. rewrite Ht, Hf, Hfb.
    destruct text as [| | |s| |]; try reflexivity.
    rewrite (Hs s eq_refl). reflexivity.
Qed.

(** An extraction failure of a well-formed request, whose message carries no
    [BAD_REQUEST] or [EXTRACTION_ERROR] tag yet, reaches the caller of
    [runPlagiarismPipeline] as an [extraction_error] with a non-empty message,
    before any chunk is searched. *)
Theorem runPlagiarismPipeline_extraction_error (env : Env) (p : proto)
    (props : list (string * jsval)) (log : list nat) (text fb e : jsval) (m : string) :
  JS.get (JObj p props) "text" = Ret text -> JS.get (JObj p props) "fileBuffer" = Ret fb ->
  (match text with JStr s => 0 < String.length (Str.trim s) | _ => False end \/
   JS.truthy fb = true) ->
  extractTextFromInput env (JObj p props) = Throw e -> JS.error_message e = Ret m ->
  Str.includes m "BAD_REQUEST" = false -> Str.includes m "EXTRACTION_ERROR" = false ->
  exists msg, msg <> EmptyString /\
    runPlagiarismPipeline env (JObj p props) log =
    (Ret (mkResult false None (Some extraction_error) (Some msg)), log).
Proof.
  intros Ht Hf Hin Hx Hm Hb Hxe.
  assert (Hpass : negb (match text with
                        | JStr s => Nat.ltb 0 (String.length (Str.trim s))
                        | _ => false end) && negb (JS.truthy fb) = false).
  { destruct Hin as [Hs|Hfb].
    - destruct text as [| | |s| |]; try contradiction. apply Nat.ltb_lt in Hs. rewrite Hs. reflexivity.
    - rewrite Hfb, andb_false_r. reflexivity. }
  unfold runPlagiarismPipeline, mcatch, pipeline_body, mbind, mret, lift.
  cbn [JS.truthy is_object negb orb JS.get_opt]. rewrite Ht, Hf, Hpass.
  unfold checkPlagiarism, mbind, lift. rewrite Hx.
  unfold extraction_catch. rewrite Hm. cbn [obind]. rewrite Hb, Hxe. cbn [orb].
  unfold pipeline_catch. cbn [JS.get_opt JS.get JS.mk_error JS.assoc String.eqb obind].
  cbn. eexists. split; [|reflexivity].
  match goal with |- (if String.eqb ?x "" then _ else _) <> _ => destruct (String.eqb_spec x "") end;
    [discriminate|assumption].
Qed.

Lemma runPlagiarismPipeline_result_shape_witness :
  exists r log',
  runPlagiarismPipeline (sample_env 0 "human") (text_input sample_text) [] = (Ret r, log') /\
  ((ok r = true /\ report r <> None /\ errorType r = None /\ message r = None) \/
   (ok r = false /\ report r = None /\
    exists ty m, errorType r = Some ty /\ message r = Some m /\ m <> EmptyString)).
Proof.
  destruct (runPlagiarismPipeline (sample_env 0 "human") (text_input sample_text) [])
    as [[r|e] log'] eqn:E.
  - exists r, log'. split; [reflexivity|]. exact (runPlagiarismPipeline_result_shape _ _ _ _ _ E).
  - exfalso. vm_compute in E. discriminate E.
Defined.

Lemma runPlagiarismPipeline_invalid_input_witness :
  runPlagiarismPipeline (sample_env 0 "human") (JStr sample_text) [] =
   (Ret (bad_request_result "Invalid input: expected an object with 'text' or 'fileBuffer'."), []) /\
  runPlagiarismPipeline (sample_env 0 "human") (text_input "   ") [] =
   (Ret (bad_request_result "Please provide either text or an uploaded document."), []).
Proof.
  split.
  - apply (proj1 (runPlagiarismPipeline_invalid_input _ _ _)). right; reflexivity.
  - apply (proj2 (runPlagiarismPipeline_invalid_input _ _ _) ProtoObject [("text", JStr "   ")]
             (JStr "   ") JUndef);
      try reflexivity.
    intros s Hs. injection Hs as <-. reflexivity.
Defined.

Lemma runPlagiarismPipeline_extraction_error_witness :
  exists msg, msg <> EmptyString /\
    runPlagiarismPipeline scanned_pdf_env pdf_input [] =
    (Ret (mkResult false None (Some extraction_error) (Some msg)), []).
Proof.
  apply (runPlagiarismPipeline_extraction_error scanned_pdf_env ProtoObject
           [("fileBuffer", JBool true); ("fileName", JStr "a.pdf")] [] JUndef (JBool true)
           (JS.mk_error NO_TEXT_PDF) NO_TEXT_PDF).
  - reflexivity.
  - reflexivity.
  - right; reflexivity.
  - vm_compute; reflexivity.
  - reflexivity.
  - vm_compute; reflexivity.
  - vm_compute; reflexivity.
Defined.

(** ** Error tags of the Source Finder and the authorship classifier *)

(** Every error [searchWebForChunk] throws carries an [UPSTREAM_ERROR] or a
    [BAD_REQUEST] tag in its message, unless reading the message of the
    search request's own error failed, in which case that failure is what
    propagates. *)
Theorem searchWebForChunk_error_tagged (env : Env) (chunkText : string) (e : jsval) :
  searchWebForChunk env chunkText = Throw e ->
  (exists m, JS.error_message e = Ret m /\
             (Str.includes m "UPSTREAM_ERROR" || Str.includes m "BAD_REQUEST") = true) \/
  (exists e0, serp env (Str.trim (Str.slice chunkText 0 500)) = Throw e0 /\
              JS.error_message e0 = Throw e).
Proof.
  unfold searchWebForChunk. destruct (negb (search_key env)).
  { intros H; injection H as <-. left. eexists. split; [reflexivity|reflexivity]. }
  destruct (cache_get_search env _); [discriminate|].
  destruct (String.eqb _ ""); [discriminate|].
  destruct (serp env _) as [res|e0] eqn:Es; [discriminate|].
  unfold search_catch. destruct (JS.error_message e0) as [m|x] eqn:Em; cbn [obind].
  2:{ intros H; injection H as <-. right. exists e0. auto. }
  destruct (any_includes m SEARCH_CRITICAL); [|discriminate].
  destruct (negb (Str.includes m "UPSTREAM_ERROR") && negb (Str.includes m "BAD_REQUEST")) eqn:Et.
  - intros H; injection H as <-. left. exists (String.append "UPSTREAM_ERROR: " m).
    split; [reflexivity|]. rewrite includes_upstream_prefix. reflexivity.
  - intros H; injection H as <-. left. exists m. split; [exact Em|].
    destruct (Str.includes m "UPSTREAM_ERROR"), (Str.includes m "BAD_REQUEST"); try reflexivity.
    discriminate Et.
Qed.

Lemma includes_ai_upstream_prefix (m : string) :
  Str.includes ("UPSTREAM_ERROR: AI detection service error: " ++ m) "UPSTREAM_ERROR" = true.
Proof. reflexivity. Qed.

(** Every error [detectAIGeneratedText] throws carries an [UPSTREAM_ERROR] or
    a [BAD_REQUEST] tag in its message, unless reading the message of the
    model's own error failed, in which case that failure is what propagates. *)
Theorem detectAIGeneratedText_error_tagged (env : Env) (fullText : string) (e : jsval) :
  detectAIGeneratedText env fullText = Throw e ->
  (exists m, JS.error_message e = Ret m /\
             (Str.includes m "UPSTREAM_ERROR" || Str.includes m "BAD_REQUEST") = true) \/
  (exists e0, gemini_ai env (textToAnalyze fullText) = Throw e0 /\ JS.error_message e0 = Throw e).
Proof.
  unfold detectAIGeneratedText. destruct (negb (gemini_key env)).
  { intros H; injection H as <-. left. eexists. split; [reflexivity|reflexivity]. }
  destruct (cache_get_ai env _); [discriminate|].
  destruct (gemini_ai env _) as [[[l v]|]|e0] eqn:Eg; [discriminate|discriminate|].
  unfold detect_catch. destruct (JS.error_message e0) as [m|x] eqn:Em; cbn [obind].
  2:{ intros H; injection H as <-. right. exists e0. auto. }
  destruct (any_includes m AI_CRITICAL); [|discriminate].
  destruct (negb (Str.includes m "UPSTREAM_ERROR") && negb (Str.includes m "BAD_REQUEST")) eqn:Et.
  - intros H; injection H as <-. left.
    exists (String.append "UPSTREAM_ERROR: AI detection service error: " m).
    split; [reflexivity|]. rewrite includes_ai_upstream_prefix. reflexivity.
  - intros H; injection H as <-. left. exists m. split; [exact Em|].
    destruct (Str.includes m "UPSTREAM_ERROR"), (Str.includes m "BAD_REQUEST"); try reflexivity.
    discriminate Et.
Qed.

Lemma searchWebForChunk_error_tagged_witness :
  searchWebForChunk (failing_search_env "fetch failed") sample_text =
    Throw (JS.mk_error "UPSTREAM_ERROR: fetch failed") /\
  ((exists m, JS.error_message (JS.mk_error "UPSTREAM_ERROR: fetch failed") = Ret m /\
              (Str.includes m "UPSTREAM_ERROR" || Str.includes m "BAD_REQUEST") = true) \/
   (exists e0, serp (failing_search_env "fetch failed") (Str.trim (Str.slice sample_text 0 500)) = Throw e0 /\
               JS.error_message e0 = Throw (JS.mk_error "UPSTREAM_ERROR: fetch failed"))).
Proof.
  assert (H : searchWebForChunk (failing_search_env "fetch failed") sample_text =
              Throw (JS.mk_error "UPSTREAM_ERROR: fetch failed")) by (vm_compute; reflexivity).
  split; [exact H|]. exact (searchWebForChunk_error_tagged _ _ _ H).
Defined.

Lemma detectAIGeneratedText_error_tagged_witness :
  detectAIGeneratedText (failing_ai_env "Gemini returned 503") sample_text =
    Throw (JS.mk_error "UPSTREAM_ERROR: AI detection service error: Gemini returned 503") /\
  ((exists m, JS.error_message (JS.mk_error "UPSTREAM_ERROR: AI detection service error: Gemini returned 503")
                = Ret m /\
              (Str.includes m "UPSTREAM_ERROR" || Str.includes m "BAD_REQUEST") = true) \/
   (exists e0, gemini_ai (failing_ai_env "Gemini returned 503") (textToAnalyze sample_text) = Throw e0 /\
               JS.error_message e0 =
               Throw (JS.mk_error "UPSTREAM_ERROR: AI detection service error: Gemini returned 503"))).
Proof.
  assert (H : detectAIGeneratedText (failing_ai_env "Gemini returned 503") sample_text =
    Throw (JS.mk_error "UPSTREAM_ERROR: AI detection service error: Gemini returned 503"))
    by (vm_compute; reflexivity).
  split; [exact H|]. exact (detectAIGeneratedText_error_tagged _ _ _ H).
Defined.

(** ** Report status and segments *)

Lemma chunk_loop_count (T : string) (fuel : nat) :
  forall s k, String.length T <= s + fuel ->
  (length (chunk_loop fuel T s) <= k <-> String.length T <= s + 1300 * k).
Proof.
  induction fuel as [|f IH]; intros s k Hf.
  - cbn. split; intros _; [lia|lia].
  - destruct (Nat.ltb_spec s (String.length T)) as [Hs|Hs].
    2:{ rewrite chunk_loop_nil by exact Hs. cbn. split; intros _; lia. }
    rewrite chunk_loop_cons by exact Hs.
    unfold CHUNK_SIZE, CHUNK_OVERLAP. cbn [Nat.sub].
    destruct (Nat.eqb_spec (Nat.min (s + 1500) (String.length T)) (s + 1300)) as [He|He].
    + cbn [length]. split; intros H; [|destruct k; lia].
      destruct k; [lia|]. lia.
    + cbn [length]. destruct k as [|k].
      * split; intros H; lia.
      * rewrite <- Nat.succ_le_mono, (IH (s + 1300) k ltac:(lia)). lia.
Qed.

(** The text splits into at most four chunks exactly when it has at most
    [4 * 1300 = 5200] characters. *)
Lemma chunkText_at_most_4 (t : string) :
  length (chunkText t) <= MAX_CHUNKS_TO_PROCESS <-> String.length t <= MAX_CHUNKS_TO_PROCESS * (CHUNK_SIZE - CHUNK_OVERLAP).
Proof.
  unfold chunkText.
  rewrite (chunk_loop_count t (S (String.length t)) 0 MAX_CHUNKS_TO_PROCESS ltac:(lia)).
  unfold MAX_CHUNKS_TO_PROCESS, CHUNK_SIZE, CHUNK_OVERLAP. split; intros; lia.
Qed.

Lemma wasLimited_iff (t : string) :
  Nat.ltb (length (firstn MAX_CHUNKS_TO_PROCESS (chunkText t))) (length (chunkText t)) = false
  <-> String.length t <= MAX_CHUNKS_TO_PROCESS * (CHUNK_SIZE - CHUNK_OVERLAP).
Proof.
  rewrite <- chunkText_at_most_4, length_firstn.
  destruct (Nat.ltb_spec (Nat.min MAX_CHUNKS_TO_PROCESS (length (chunkText t))) (length (chunkText t)));
    split; intros H'; try discriminate; try reflexivity; lia.
Qed.

Lemma status_flags (u : nat) (w : bool) (errs : list jsval) :
  (if Nat.ltb 0 u || w || Nat.ltb 0 (length errs) then partial_success else success) = success
  <-> u = 0 /\ w = false /\ errs = [].
Proof.
  destruct (Nat.ltb_spec 0 u) as [Hu|Hu], w, errs; cbn; split; intros Hx; try discriminate;
    try (destruct Hx as (H1 & H2 & H3); try discriminate; lia); auto.
  split; [lia|auto].
Qed.

(** The [analysisStatus] of a report is never [error], and it is [success]
    exactly when the extracted text has at most [4 * (1500 - 200) = 5200]
    characters (so that no
    chunk is left out), no chunk went unscored or absorbed an error, and the
    authorship classifier answered; otherwise it is [partial_success]. *)
Theorem checkPlagiarism_status (env : Env) (input : jsval) (log : list nat)
    (rep : PlagiarismReport) (log' : list nat) :
  checkPlagiarism env input log = (Ret rep, log') ->
  exists fullText pr,
    extractTextFromInput env input = Ret fullText /\
    fst (processChunksConcurrently env (firstn MAX_CHUNKS_TO_PROCESS (chunkText fullText)) log)
      = Ret pr /\
    analysisStatus rep <> error /\
    (analysisStatus rep = success <->
     String.length fullText <= MAX_CHUNKS_TO_PROCESS * (CHUNK_SIZE - CHUNK_OVERLAP) /\ unscoredCount pr = 0 /\ errors pr = [] /\
     exists r, detectAIGeneratedText env fullText = Ret r).
Proof.
  unfold checkPlagiarism, mbind, lift, mcatch, mret. intros H.
  destruct (extractTextFromInput env input) as [t|e] eqn:Ex.
  2:{ destruct (extraction_catch_throws e) as [e' He]. rewrite He in H. discriminate. }
  destruct (processChunksConcurrently env (firstn MAX_CHUNKS_TO_PROCESS (chunkText t)) log)
    as [[pr|e] log1] eqn:Ep.
  2:{ destruct (processing_catch_nil_throws e) as [e' He]. rewrite He in H. discriminate. }
  exists t, pr. split; [reflexivity|split; [rewrite Ep; reflexivity|]].
  pose proof (status_flags (unscoredCount pr)
                (Nat.ltb (length (firstn MAX_CHUNKS_TO_PROCESS (chunkText t))) (length (chunkText t)))
                (errors pr)) as Hf.
  pose proof (wasLimited_iff t) as Hw.
  destruct (detectAIGeneratedText env t) as [r|e] eqn:Ed.
  - injection H as <- _. cbn [analysisStatus].
    split; [destruct (_ || _ || _); discriminate|].
    rewrite Hf, Hw. split.
    + intros (H1 & H2 & H3). split; [exact H2|split; [exact H1|split; [exact H3|eauto]]].
    + intros (H1 & H2 & H3 & _). auto.
  - injection H as <- _. cbn [analysisStatus].
    split; [destruct (_ || _ || _); discriminate|].
    split.
    + destruct (_ || _ || _); discriminate.
    + intros (_ & _ & _ & r & Hr). discriminate Hr.
Qed.

(** When the authorship classifier fails, the report still comes out, with
    likelihood 0.5, verdict [uncertain] and status [partial_success]. *)
Theorem checkPlagiarism_ai_failure (env : Env) (input : jsval) (log : list nat)
    (rep : PlagiarismReport) (log' : list nat) (fullText : string) (e : jsval) :
  checkPlagiarism env input log = (Ret rep, log') ->
  extractTextFromInput env input = Ret fullText ->
  detectAIGeneratedText env fullText = Throw e ->
  aiGeneratedLikelihood rep = (1 # 2)%Q /\ aiVerdict rep = uncertain /\
  analysisStatus rep = partial_success.
Proof.
  unfold checkPlagiarism, mbind, lift, mcatch, mret. intros H Ex Ed. rewrite Ex in H.
  destruct (processChunksConcurrently env (firstn MAX_CHUNKS_TO_PROCESS (chunkText fullText)) log)
    as [[pr|e'] log1] eqn:Ep.
  2:{ destruct (processing_catch_nil_throws e') as [e'' He]. rewrite He in H. discriminate. }
  rewrite Ed in H. injection H as <- _. cbn. split; [reflexivity|split; [reflexivity|]].
  destruct (_ || _ || _); reflexivity.
Qed.

Lemma checkPlagiarism_status_witness :
  exists rep log',
  checkPlagiarism (sample_env 0 "human") (text_input sample_text) [] = (Ret rep, log') /\
  exists fullText pr,
    extractTextFromInput (sample_env 0 "human") (text_input sample_text) = Ret fullText /\
    fst (processChunksConcurrently (sample_env 0 "human")
           (firstn MAX_CHUNKS_TO_PROCESS (chunkText fullText)) []) = Ret pr /\
    analysisStatus rep <> error /\
    (analysisStatus rep = success <->
     String.length fullText <= MAX_CHUNKS_TO_PROCESS * (CHUNK_SIZE - CHUNK_OVERLAP) /\ unscoredCount pr = 0 /\ errors pr = [] /\
     exists r, detectAIGeneratedText (sample_env 0 "human") fullText = Ret r).
Proof.
  destruct (checkPlagiarism (sample_env 0 "human") (text_input sample_text) [])
    as [[rep|e] log'] eqn:E.
  - exists rep, log'. split; [reflexivity|]. exact (checkPlagiarism_status _ _ _ _ _ E).
  - exfalso. vm_compute in E. discriminate E.
Defined.

Lemma checkPlagiarism_ai_failure_witness :
  exists rep log',
  checkPlagiarism (failing_ai_env "Gemini returned 503") (text_input sample_text) [] = (Ret rep, log') /\
  aiGeneratedLikelihood rep = (1 # 2)%Q /\ aiVerdict rep = uncertain /\
  analysisStatus rep = partial_success.
Proof.
  destruct (checkPlagiarism (failing_ai_env "Gemini returned 503") (text_input sample_text) [])
    as [[rep|e] log'] eqn:E.
  - exists rep, log'. split; [reflexivity|].
    apply (checkPlagiarism_ai_failure _ _ _ _ _ sample_text
             (JS.mk_error "UPSTREAM_ERROR: AI detection service error: Gemini returned 503") E).
    + vm_compute; reflexivity.
    + vm_compute; reflexivity.
  - exfalso. vm_compute in E. discriminate E.
Defined.

(** A text of 1301 to 1500 characters gives two chunks, the second of which,
    from index 1300 to the end, lies wholly inside the first: its characters
    are searched and scored twice. *)
Theorem chunkText_nested_tail (t : string) :
  CHUNK_SIZE - CHUNK_OVERLAP < String.length t <= CHUNK_SIZE ->
  chunkText t =
    [mkChunk (Str.slice t 0 (String.length t)) 0 (String.length t);
     mkChunk (Str.slice t (CHUNK_SIZE - CHUNK_OVERLAP) (String.length t))
             (CHUNK_SIZE - CHUNK_OVERLAP) (String.length t)].
Proof.
  unfold CHUNK_SIZE, CHUNK_OVERLAP. cbn [Nat.sub]. intros Hl. unfold chunkText.
  rewrite chunk_loop_cons by lia. unfold CHUNK_SIZE, CHUNK_OVERLAP. cbn [Nat.sub Nat.add].
  replace (Nat.min 1500 (String.length t)) with (String.length t) by lia.
  destruct (Nat.eqb_spec (String.length t) 1300) as [He|_]; [lia|].
  destruct (String.length t) as [|n] eqn:En; [lia|].
  rewrite chunk_loop_cons by lia. rewrite En. unfold CHUNK_SIZE, CHUNK_OVERLAP. cbn [Nat.sub].
  replace (Nat.min (1300 + 1500) (S n)) with (S n) by lia.
  destruct (Nat.eqb_spec (S n) (1300 + 1300)) as [He|_]; [lia|].
  rewrite chunk_loop_nil by lia. reflexivity.
Qed.

Lemma chunkText_nested_tail_witness :
  CHUNK_SIZE - CHUNK_OVERLAP < String.length text_1400 <= CHUNK_SIZE /\
  chunkText text_1400 =
    [mkChunk (Str.slice text_1400 0 (String.length text_1400)) 0 (String.length text_1400);
     mkChunk (Str.slice text_1400 (CHUNK_SIZE - CHUNK_OVERLAP) (String.length text_1400))
             (CHUNK_SIZE - CHUNK_OVERLAP) (String.length text_1400)].
Proof.
  assert (H : CHUNK_SIZE - CHUNK_OVERLAP < String.length text_1400 <= CHUNK_SIZE).
  { unfold text_1400. rewrite of_chars_length, repeat_length. unfold CHUNK_SIZE, CHUNK_OVERLAP. lia. }
  split; [exact H|]. exact (chunkText_nested_tail _ H).
Defined.

Lemma chunk_task_seg (env : Env) (c : TextChunk) (s : SuspiciousSegment) :
  chunk_task env c = Ret (TDone (Some s)) ->
  seg_startIndex s = startIndex c /\ seg_endIndex s = endIndex c /\
  String.length (seg_textPreview s) <= 100.
Proof.
  unfold chunk_task.
  destruct (chunk_body env c) as [o|e] eqn:Eb.
  2:{ unfold chunk_catch.
      destruct (if JS.instanceof_Error e then _ else _) as [err|x]; cbn [obind]; [|discriminate].
      destruct (JS.error_message err) as [m|x]; cbn [obind]; [|discriminate].
      destruct (_ || _); discriminate. }
  intros H; injection H as ->.
  unfold chunk_body in Eb.
  destruct (searchWebForChunk env (ctext c)) as [res|x]; cbn [obind] in Eb; [|discriminate].
  destruct (score env c res) as [r|x]; cbn [obind] in Eb; [|discriminate].
  destruct (_ && _); [|discriminate].
  injection Eb as <-. cbn [seg_startIndex seg_endIndex seg_textPreview].
  split; [reflexivity|split; [reflexivity|]].
  eapply Nat.le_trans; [apply trim_length|]. rewrite slice_0, of_chars_length.
  apply firstn_le_length.
Qed.

Lemma fold_add_task (ts : list task_result) :
  forall acc, exists new,
    segments (fold_left add_task ts acc) = segments acc ++ new /\ length new <= length ts /\
    forall s, In s new -> In (TDone (Some s)) ts.
Proof.
  induction ts as [|t ts IH]; intros acc.
  - exists []. cbn. rewrite app_nil_r. split; [reflexivity|split; [cbn [length]; lia|intros s []]].
  - cbn [fold_left]. destruct (IH (add_task acc t)) as (new & Hs & Hl & Hin).
    rewrite Hs. destruct t as [[s|]|err counted]; cbn [add_task segments].
    + exists (s :: new). rewrite <- app_assoc. split; [reflexivity|].
      split; [cbn [length]; lia|]. intros x [<-|Hx]; [left; reflexivity|right; auto].
    + exists new. split; [reflexivity|split; [cbn [length]; lia|]]. intros x Hx; right; auto.
    + exists new. split; [reflexivity|split; [cbn [length]; lia|]]. intros x Hx; right; auto.
Qed.

Lemma fulfilled_in (l : list (outcome task_result)) (t : task_result) :
  In t (fulfilled l) -> In (Ret t) l.
Proof.
  induction l as [|[x|e] r IH]; cbn; [auto| |].
  - intros [->|H]; [left; reflexivity|right; auto].
  - intros H; right; auto.
Qed.

Lemma fulfilled_length (l : list (outcome task_result)) : length (fulfilled l) <= length l.
Proof. induction l as [|[x|e] r IH]; cbn; lia. Qed.

Lemma in_firstn' {A} (n : nat) (l : list A) (x : A) : In x (firstn n l) -> In x l.
Proof. intros H. rewrite <- (firstn_skipn n l). apply in_or_app. left; exact H. Qed.

Lemma in_skipn' {A} (n : nat) (l : list A) (x : A) : In x (skipn n l) -> In x l.
Proof. intros H. rewrite <- (firstn_skipn n l). apply in_or_app. right; exact H. Qed.

Lemma process_loop_segments (env : Env) (chunks : list TextChunk) (fuel : nat) :
  forall i acc log r log',
    process_loop fuel env chunks i acc log = (Ret r, log') ->
    exists new, segments r = segments acc ++ new /\ length new <= length chunks - i /\
      forall s, In s new -> exists c, In c chunks /\ chunk_task env c = Ret (TDone (Some s)).
Proof.
  induction fuel as [|f IH]; intros i acc log r log' H.
  - cbn in H. injection H as <- _. exists []. rewrite app_nil_r.
    split; [reflexivity|split; [cbn [length]; lia|intros s []]].
  - cbn [process_loop] in H.
    destruct (Nat.ltb_spec i (length chunks)) as [Hi|Hi].
    2:{ unfold mret in H. injection H as <- _. exists []. rewrite app_nil_r.
        split; [reflexivity|split; [cbn [length]; lia|intros s []]]. }
    unfold mbind, tell in H.
    destruct (rejections (map (chunk_task env) (firstn MAX_CONCURRENT_CHUNKS (skipn i chunks))))
      eqn:Erej; [|unfold mthrow in H; discriminate H].
    apply IH in H. destruct H as (new2 & Hs2 & Hl2 & Hin2).
    destruct (fold_add_task (fulfilled (map (chunk_task env) (firstn MAX_CONCURRENT_CHUNKS (skipn i chunks)))) acc)
      as (new1 & Hs1 & Hl1 & Hin1).
    exists (new1 ++ new2). rewrite Hs2, Hs1, app_assoc. split; [reflexivity|]. split.
    + rewrite length_app.
      pose proof (fulfilled_length (map (chunk_task env) (firstn MAX_CONCURRENT_CHUNKS (skipn i chunks)))).
      rewrite length_map, length_firstn, length_skipn in H. unfold MAX_CONCURRENT_CHUNKS in *.
      pose proof (Nat.le_min_l 3 (length chunks - i)). pose proof (Nat.le_min_r 3 (length chunks - i)).
      lia.
    + intros s Hs. apply in_app_or in Hs. destruct Hs as [Hs|Hs]; [|exact (Hin2 s Hs)].
      apply Hin1, fulfilled_in, in_map_iff in Hs. destruct Hs as (c & Hc & Hcin).
      exists c. split; [apply in_skipn' with i, in_firstn' with MAX_CONCURRENT_CHUNKS; exact Hcin|exact Hc].
Qed.

Lemma insert_seg_hdrel (x s : SuspiciousSegment) (l : list SuspiciousSegment) :
  HdRel (fun a b => seg_startIndex a <= seg_startIndex b) x l ->
  seg_startIndex x <= seg_startIndex s ->
  HdRel (fun a b => seg_startIndex a <= seg_startIndex b) x (insert_seg s l).
Proof.
  destruct l as [|y r]; cbn; intros H1 H2; [constructor; exact H2|].
  destruct (Nat.leb _ _); constructor; [exact H2|]. inversion H1; assumption.
Qed.

Lemma sort_segments_sorted (l : list SuspiciousSegment) :
  Sorted (fun a b => seg_startIndex a <= seg_startIndex b) (sort_segments l).
Proof.
  induction l as [|x r IH]; cbn; [constructor|].
  revert IH. generalize (sort_segments r). intros l Hl. induction l as [|y l IHl]; cbn.
  - repeat constructor.
  - destruct (Nat.leb_spec (seg_startIndex x) (seg_startIndex y)) as [Hle|Hgt].
    + constructor; [exact Hl|constructor; exact Hle].
    + inversion Hl as [|? ? Hr Hhd]; subst.
      constructor; [apply IHl; exact Hr|].
      apply insert_seg_hdrel; [exact Hhd|lia].
Qed.

(** The segments of a report: at most [MAX_CHUNKS_TO_PROCESS] of them, sorted
    by [startIndex], each the range of one of the chunks of the extracted text
    (so [startIndex < endIndex <= normalizedTextLength] and at most
    [CHUNK_SIZE] characters wide), with a preview of at most 100 characters. *)
Theorem checkPlagiarism_segments (env : Env) (input : jsval) (log : list nat)
    (rep : PlagiarismReport) (log' : list nat) :
  checkPlagiarism env input log = (Ret rep, log') ->
  length (suspiciousSegments rep) <= MAX_CHUNKS_TO_PROCESS /\
  Sorted (fun a b => seg_startIndex a <= seg_startIndex b) (suspiciousSegments rep) /\
  forall s, In s (suspiciousSegments rep) ->
    seg_startIndex s < seg_endIndex s <= normalizedTextLength rep /\
    seg_endIndex s - seg_startIndex s <= CHUNK_SIZE /\
    String.length (seg_textPreview s) <= 100.
Proof.
  intros H.
  destruct (checkPlagiarism_ret _ _ _ _ _ H) as (t & pr & Ex & Ep & Hlen & Hsegs & _).
  rewrite Hsegs, Hlen.
  unfold processChunksConcurrently, mbind, mret in Ep.
  destruct (process_loop _ env _ 0 (mkPR [] 0 []) log) as [[r|e] l1] eqn:El;
    [|discriminate Ep].
  cbn [fst] in Ep. injection Ep as <-. cbn [segments].
  destruct (process_loop_segments _ _ _ _ _ _ _ _ El) as (new & Hs & Hl & Hin).
  cbn [segments app] in Hs. rewrite Hs.
  split; [|split; [apply sort_segments_sorted|]].
  - rewrite (Permutation_length (sort_segments_perm new)).
    rewrite length_firstn in Hl. pose proof (Nat.le_min_l MAX_CHUNKS_TO_PROCESS (length (chunkText t))).
    lia.
  - intros s Hsin. apply (Permutation_in _ (sort_segments_perm new)) in Hsin.
    destruct (Hin s Hsin) as (c & Hc & Htask).
    destruct (chunk_task_seg _ _ _ Htask) as (Hst & Hen & Hpre).
    apply in_firstn' in Hc. unfold chunkText in Hc.
    destruct (chunk_loop_in _ _ _ _ Hc) as (_ & _ & Hlt & Hend).
    rewrite Hst, Hen, Hend. unfold CHUNK_SIZE.
    split; [split; lia|split; [lia|exact Hpre]].
Qed.

Lemma checkPlagiarism_segments_witness :
  exists rep log',
  checkPlagiarism copied_env (text_input sample_text) [] = (Ret rep, log') /\
  suspiciousSegments rep <> [] /\
  length (suspiciousSegments rep) <= MAX_CHUNKS_TO_PROCESS /\
  Sorted (fun a b => seg_startIndex a <= seg_startIndex b) (suspiciousSegments rep) /\
  forall s, In s (suspiciousSegments rep) ->
    seg_startIndex s < seg_endIndex s <= normalizedTextLength rep /\
    seg_endIndex s - seg_startIndex s <= CHUNK_SIZE /\
    String.length (seg_textPreview s) <= 100.
Proof.
  destruct (checkPlagiarism copied_env (text_input sample_text) []) as [[rep|e] log'] eqn:E.
  - exists rep, log'. split; [reflexivity|].
    split; [vm_compute in E; injection E as <- _; discriminate|].
    exact (checkPlagiarism_segments _ _ _ _ _ E).
  - exfalso. vm_compute in E. discriminate E.
Defined.

(** ** Risk level *)

(** [determineRiskLevel] is monotone: a higher plagiarism percentage or a
    higher AI likelihood never gives a lower risk level. *)
Theorem determineRiskLevel_monotone (p1 p2 a1 a2 : Q) :
  (p1 <= p2)%Q -> (a1 <= a2)%Q ->
  risk_rank (determineRiskLevel p1 a1) <= risk_rank (determineRiskLevel p2 a2).
Proof.
  intros Hp Ha. unfold determineRiskLevel.
  set (c1 := (p1 * (6 # 10) + a1 * 100 * (4 # 10))%Q).
  set (c2 := (p2 * (6 # 10) + a2 * 100 * (4 # 10))%Q).
  assert (Hc : (c1 <= c2)%Q).
  { unfold c1, c2. apply Qplus_le_compat.
    - apply Qmult_le_compat_r; [exact Hp|discriminate].
    - apply Qmult_le_compat_r; [|discriminate]. apply Qmult_le_compat_r; [exact Ha|discriminate]. }
  destruct (Qle_bool 60 c1) eqn:E1.
  - apply Qle_bool_iff in E1.
    assert (E2 : Qle_bool 60 c2 = true) by (apply Qle_bool_iff; eapply Qle_trans; eassumption).
    rewrite E2. cbn; lia.
  - destruct (Qle_bool 30 c1) eqn:E3.
    + apply Qle_bool_iff in E3.
      assert (E4 : Qle_bool 30 c2 = true) by (apply Qle_bool_iff; eapply Qle_trans; eassumption).
      rewrite E4. destruct (Qle_bool 60 c2); cbn; lia.
    + cbn [risk_rank]. lia.
Qed.

Lemma determineRiskLevel_monotone_witness :
  (20 <= 80)%Q /\ (1 # 10 <= 9 # 10)%Q /\
  risk_rank (determineRiskLevel 20 (1 # 10)) <= risk_rank (determineRiskLevel 80 (9 # 10)).
Proof.
  assert (Hp : (20 <= 80)%Q) by (unfold Qle; cbn; lia).
  assert (Ha : (1 # 10 <= 9 # 10)%Q) by (unfold Qle; cbn; lia).
  split; [exact Hp|split; [exact Ha|]]. exact (determineRiskLevel_monotone _ _ _ _ Hp Ha).
Defined.
